(** * Echo runtime agent: execution-coordination core

    A shallow embedding of [src/runtime-agent.ts].  The agent is a
    single-threaded event-driven program: module-level state
    ([isShuttingDown], [processedExecutions], the three subscription
    handles, the heartbeat timer) is mutated by callbacks that the
    JavaScript event loop runs to completion, one at a time.  We model

    - the module state as a record [Agent];
    - synchronous blocks of code as computations in a state-and-exception
      monad [M] over [Agent];
    - [setTimeout] callbacks and [await] continuations as [Task]s parked in
      the agent's timer queue;
    - the outside world (store notifications, signals, timer firings) as
      [Action]s, which drive a total [step] function.

    Everything the agent does to the outside world is appended to one
    [trace] of [Effect]s, so that ordering claims can be stated across
    commits, console output, unsubscriptions and process exit. *)

From stdpp Require Import gmap strings list pretty.

Open Scope Z_scope.

(** ** JavaScript values used by the agent *)

(** A thrown value: an [Error] object with its [message], or any other
    value, kept as the string that [String(v)] yields. *)
Inductive exn :=
| JsError (message : string)
| JsValue (repr : string).

(** [error instanceof Error ? error.message : String(error)] *)
Definition error_message (error : exn) : string :=
  match error with
  | JsError m => m
  | JsValue s => s
  end.

(** String-valued expressions that may be [undefined] / [null]. *)
Definition truthy (v : option string) : bool :=
  match v with
  | Some s => negb (bool_decide (s = ""))
  | None => false
  end.

(** [a || b] *)
Definition js_or (a b : option string) : option string :=
  if truthy a then a else b.

(** [a ?? d] with a string default *)
Definition js_nullish (a : option string) (d : string) : string :=
  match a with
  | Some s => s
  | None => d
  end.

(** [v || ""] *)
Definition or_empty (v : option string) : string :=
  js_nullish (js_or v (Some "")) "".

Definition dquote : string := String (Ascii.ascii_of_nat 34) EmptyString.

(** ** Rows of the store's tables *)

Record QueueEntry := mkQueueEntry {
  qe_id : string;
  qe_cellId : string;
  qe_status : string;
  qe_priority : Z;
  qe_assignedKernelSession : option string;
}.

Record Cell := mkCell {
  cell_id : string;
  cellType : string;
  source : option string;
}.

Record KernelSession := mkKernelSession {
  ks_sessionId : string;
  ks_isActive : bool;
}.

(** ** Events committed to the store *)

Record Capabilities := mkCapabilities {
  canExecuteCode : bool;
  canExecuteSql : bool;
  canExecuteAi : bool;
}.

(** [RichOutputData] and [metadata]: objects keyed by strings. *)
Definition JsObject := list (string * string).

Record OutputData := mkOutputData {
  od_type : string;
  od_data : JsObject;
  od_metadata : JsObject;
}.

Inductive Event :=
| kernelSessionStarted (sessionId kernelId kernelType : string)
    (capabilities : Capabilities)
| kernelSessionHeartbeat (sessionId status : string) (timestamp : Z)
| kernelSessionTerminated (sessionId reason : string)
| executionAssigned (queueId kernelSessionId : string)
| executionStarted (queueId cellId kernelSessionId : string) (startedAt : Z)
| cellOutputsCleared (cellId clearedBy : string)
| cellOutputAdded (id cellId outputType : string) (data metadata : JsObject)
    (position : Z)
| executionCompleted (queueId cellId status : string) (error : option string)
    (completedAt executionDurationMs : Z).

(** ** Observable effects *)

Inductive Level := LLog | LWarn | LError.

Inductive Sub := AssignedWork | PendingWork | ActiveKernels.

Inductive Effect :=
| Commit (e : Event) (thrown : option exn)
    (* [store.commit(e)]: accepted ([None]) or rejected by throwing *)
| Console (level : Level) (text : string) (arg : option exn)
| Invoked (queueEntry : QueueEntry)
    (* entry into [processExecution(queueEntry)] *)
| ClearInterval
| Unsubscribe (s : Sub)
| StoreShutdown
| Exit (code : Z).

(** ** Suspended computations waiting in the event loop *)

Inductive Task :=
| AssignedWorkTimer (entries : list QueueEntry)
    (* the [setTimeout] callback scheduled by the assigned-work [onUpdate] *)
| ProcessExecutionAwait (queueEntry : QueueEntry) (rest : list QueueEntry)
    (* [processExecution(queueEntry)] parked at its [await]; [rest] is what
       the enclosing [for] loop still has to visit *)
| PendingWorkTimer (entries : list QueueEntry)
    (* the [setTimeout] callback scheduled by the pending-work [onUpdate] *)
| ShutdownAwait
    (* [shutdown] parked at [await store.shutdown()] that will resolve *)
| ShutdownRejected (reason : exn).
    (* [store.shutdown()] rejected: the rejection is unhandled *)

(** ** Module state *)

Record Agent := mkAgent {
  isShuttingDown : bool;
  processedExecutions : gset string;
  assignedWorkSubscription : option Sub;
  pendingWorkSubscription : option Sub;
  activeKernelsSubscription : option Sub;
  heartbeatInterval : bool;          (* the interval timer is armed *)
  cells : list Cell;                 (* materialised [tables.cells] *)
  kernelSessions : list KernelSession; (* materialised [tables.kernelSessions] *)
  dates : nat;                       (* clock readings taken so far *)
  uuids : nat;                       (* UUIDs drawn so far *)
  timers : list Task;
  exited : option Z;
  trace : list Effect;
}.

Definition set_isShuttingDown (b : bool) (a : Agent) : Agent :=
  mkAgent b (processedExecutions a) (assignedWorkSubscription a)
    (pendingWorkSubscription a) (activeKernelsSubscription a)
    (heartbeatInterval a) (cells a) (kernelSessions a) (dates a) (uuids a)
    (timers a) (exited a) (trace a).

Definition set_processedExecutions (s : gset string) (a : Agent) : Agent :=
  mkAgent (isShuttingDown a) s (assignedWorkSubscription a)
    (pendingWorkSubscription a) (activeKernelsSubscription a)
    (heartbeatInterval a) (cells a) (kernelSessions a) (dates a) (uuids a)
    (timers a) (exited a) (trace a).

Definition get_subscription (s : Sub) (a : Agent) : option Sub :=
  match s with
  | AssignedWork => assignedWorkSubscription a
  | PendingWork => pendingWorkSubscription a
  | ActiveKernels => activeKernelsSubscription a
  end.

Definition set_subscription (s : Sub) (v : option Sub) (a : Agent) : Agent :=
  mkAgent (isShuttingDown a) (processedExecutions a)
    (match s with AssignedWork => v | _ => assignedWorkSubscription a end)
    (match s with PendingWork => v | _ => pendingWorkSubscription a end)
    (match s with ActiveKernels => v | _ => activeKernelsSubscription a end)
    (heartbeatInterval a) (cells a) (kernelSessions a) (dates a) (uuids a)
    (timers a) (exited a) (trace a).

Definition set_heartbeatInterval (b : bool) (a : Agent) : Agent :=
  mkAgent (isShuttingDown a) (processedExecutions a)
    (assignedWorkSubscription a) (pendingWorkSubscription a)
    (activeKernelsSubscription a) b (cells a) (kernelSessions a) (dates a)
    (uuids a) (timers a) (exited a) (trace a).

Definition set_tables (cs : list Cell) (ks : list KernelSession) (a : Agent)
  : Agent :=
  mkAgent (isShuttingDown a) (processedExecutions a)
    (assignedWorkSubscription a) (pendingWorkSubscription a)
    (activeKernelsSubscription a) (heartbeatInterval a) cs ks (dates a)
    (uuids a) (timers a) (exited a) (trace a).

Definition set_dates (n : nat) (a : Agent) : Agent :=
  mkAgent (isShuttingDown a) (processedExecutions a)
    (assignedWorkSubscription a) (pendingWorkSubscription a)
    (activeKernelsSubscription a) (heartbeatInterval a) (cells a)
    (kernelSessions a) n (uuids a) (timers a) (exited a) (trace a).

Definition set_uuids (n : nat) (a : Agent) : Agent :=
  mkAgent (isShuttingDown a) (processedExecutions a)
    (assignedWorkSubscription a) (pendingWorkSubscription a)
    (activeKernelsSubscription a) (heartbeatInterval a) (cells a)
    (kernelSessions a) (dates a) n (timers a) (exited a) (trace a).

Definition set_timers (ts : list Task) (a : Agent) : Agent :=
  mkAgent (isShuttingDown a) (processedExecutions a)
    (assignedWorkSubscription a) (pendingWorkSubscription a)
    (activeKernelsSubscription a) (heartbeatInterval a) (cells a)
    (kernelSessions a) (dates a) (uuids a) ts (exited a) (trace a).

Definition set_exited (c : option Z) (a : Agent) : Agent :=
  mkAgent (isShuttingDown a) (processedExecutions a)
    (assignedWorkSubscription a) (pendingWorkSubscription a)
    (activeKernelsSubscription a) (heartbeatInterval a) (cells a)
    (kernelSessions a) (dates a) (uuids a) (timers a) c (trace a).

Definition set_trace (tr : list Effect) (a : Agent) : Agent :=
  mkAgent (isShuttingDown a) (processedExecutions a)
    (assignedWorkSubscription a) (pendingWorkSubscription a)
    (activeKernelsSubscription a) (heartbeatInterval a) (cells a)
    (kernelSessions a) (dates a) (uuids a) (timers a) (exited a) tr.

(** ** The monad of synchronous code *)

Inductive Res (A : Type) :=
| Ok (a : A)              (* normal completion *)
| Throw (e : exn)         (* an exception is propagating *)
| Halt.                   (* [Deno.exit] was called: nothing runs after it *)
Arguments Ok {A} a.
Arguments Throw {A} e.
Arguments Halt {A}.

Definition M (A : Type) : Type := Agent → Res A * Agent.

Global Instance M_ret : MRet M := λ A x a, (Ok x, a).

Global Instance M_bind : MBind M := λ A B f m a,
  match m a with
  | (Ok x, a') => f x a'
  | (Throw e, a') => (Throw e, a')
  | (Halt, a') => (Halt, a')
  end.

Definition throw {A} (e : exn) : M A := λ a, (Throw e, a).

(** [try { body } catch (error) { handler error }] *)
Definition try_catch {A} (body : M A) (handler : exn → M A) : M A := λ a,
  match body a with
  | (Throw e, a') => handler e a'
  | r => r
  end.

Definition get : M Agent := λ a, (Ok a, a).
Definition modify (f : Agent → Agent) : M unit := λ a, (Ok tt, f a).
Definition emit (e : Effect) : M unit :=
  modify (λ a, set_trace (trace a ++ [e]) a).

Definition console_log (text : string) : M unit :=
  emit (Console LLog text None).
Definition console_warn (text : string) (arg : exn) : M unit :=
  emit (Console LWarn text (Some arg)).
Definition console_error (text : string) (arg : option exn) : M unit :=
  emit (Console LError text arg).

Definition setTimeout (t : Task) : M unit :=
  modify (λ a, set_timers (timers a ++ [t]) a).

(** [Deno.exit(code)] *)
Definition Deno_exit {A} (code : Z) : M A := λ a,
  (Halt, set_exited (Some code) (set_trace (trace a ++ [Exit code]) a)).

(** ** Reading the trace *)

Definition committed (tr : list Effect) : list Event :=
  omap (λ x, match x with Commit e None => Some e | _ => None end) tr.

Definition attempted (tr : list Effect) : list Event :=
  omap (λ x, match x with Commit e _ => Some e | _ => None end) tr.

Definition invocations (tr : list Effect) : list QueueEntry :=
  omap (λ x, match x with Invoked q => Some q | _ => None end) tr.

Definition console_of (tr : list Effect)
  : list (Level * string * option exn) :=
  omap (λ x, match x with Console l t arg => Some (l, t, arg) | _ => None end)
    tr.

(** ** The outside world

    What the agent cannot decide for itself: the clock, the UUID generator,
    whether the store accepts a commit, and how [store.shutdown] behaves.
    The commit oracle sees everything the agent has done so far, so it can
    describe a store that fails once and then recovers. *)

Record World := mkWorld {
  clock : nat → Z;                   (* the n-th reading of the clock, ms *)
  randomUUID : nat → string;         (* the n-th [crypto.randomUUID()] *)
  commit_throws : list Effect → Event → option exn;
  store_shutdown : option (option exn);
    (* [None]: the store has no [shutdown] method;
       [Some None]: the promise resolves; [Some (Some e)]: it rejects *)
  createStore_throws : option exn;   (* [createStorePromise] rejects *)
}.

Section Agent.

Variable w : World.
Variables KERNEL_ID SESSION_ID : string.

(** [new Date()] (and [.getTime()]) *)
Definition newDate : M Z := λ a,
  (Ok (clock w (dates a)), set_dates (S (dates a)) a).

(** [generateUUID()] *)
Definition generateUUID : M string := λ a,
  (Ok (randomUUID w (uuids a)), set_uuids (S (uuids a)) a).

(** [store.commit(e)] *)
Definition commit (e : Event) : M unit := λ a,
  let r := commit_throws w (trace a) e in
  (match r with None => Ok tt | Some x => Throw x end,
   set_trace (trace a ++ [Commit e r]) a).

(** [store.query(tables.cells.select().where({ id }))] *)
Definition query_cells (id : string) : M (list Cell) := λ a,
  (Ok (filter (λ c, cell_id c = id) (cells a)), a).

(** [store.query(activeKernelsQuery$)]: the rows with [isActive: true] *)
Definition query_activeKernels : M (list KernelSession) := λ a,
  (Ok (filter (λ k, ks_isActive k = true) (kernelSessions a)), a).

(** *** processExecution *)

(** Lines 204-228: the output computed from the cell. *)
Definition outputData (cell : Cell) : OutputData :=
  if bool_decide (cellType cell = "ai") then
    mkOutputData "execute_result"
      [("text/plain",
        "Beep boop. You said " +:+ dquote +:+ or_empty (source cell)
          +:+ dquote)]
      []
  else
    mkOutputData "execute_result"
      [("text/plain", or_empty (source cell))]
      [].

(** Lines 172-175: up to the [await]; the rest of the body is parked as a
    task, together with what the caller's loop still has to do. *)
Definition processExecution_call (queueEntry : QueueEntry)
    (rest : list QueueEntry) : M unit :=
  emit (Invoked queueEntry);;
  console_log ("⚡ Processing execution for cell " +:+ qe_cellId queueEntry);;
  setTimeout (ProcessExecutionAwait queueEntry rest).

(** Lines 177-274: from the [await] to the end; all of it synchronous. *)
Definition processExecution_resume (queueEntry : QueueEntry) : M unit :=
  executionStartTime ← newDate;
  try_catch
    (cells ← query_cells (qe_cellId queueEntry);
     match head cells with
     | None =>
         throw (JsError ("Cell " +:+ qe_cellId queueEntry +:+ " not found"))
     | Some cell =>
         commit (executionStarted (qe_id queueEntry) (qe_cellId queueEntry)
                   SESSION_ID executionStartTime);;
         commit (cellOutputsCleared (cell_id cell) ("kernel-" +:+ KERNEL_ID));;
         let outputData := outputData cell in
         id ← generateUUID;
         commit (cellOutputAdded id (cell_id cell) (od_type outputData)
                   (od_data outputData) (od_metadata outputData) 0);;
         executionEndTime ← newDate;
         let executionDurationMs := executionEndTime - executionStartTime in
         commit (executionCompleted (qe_id queueEntry) (qe_cellId queueEntry)
                   "success" None executionEndTime executionDurationMs);;
         console_log ("✅ Execution completed in "
                        +:+ pretty executionDurationMs +:+ "ms")
     end)
    (λ error,
       console_error "❌ Error in execution:" (Some error);;
       try_catch
         (executionEndTime ← newDate;
          let executionDurationMs := executionEndTime - executionStartTime in
          commit (executionCompleted (qe_id queueEntry) (qe_cellId queueEntry)
                    "error" (Some (error_message error)) executionEndTime
                    executionDurationMs))
         (λ commitError,
            console_error "💥 Failed to mark execution as failed:"
              (Some commitError))).

(** *** The assigned-work subscription (lines 319-345) *)

(** The [for] loop of the timer callback, run until it parks at the
    [await] inside [processExecution] or runs out of entries. *)
Fixpoint assignedWork_loop (entries : list QueueEntry) : M unit :=
  match entries with
  | [] => mret tt
  | queueEntry :: rest =>
      a ← get;
      if bool_decide (qe_id queueEntry ∈ processedExecutions a) then
        assignedWork_loop rest
      else
        modify (λ a, set_processedExecutions
                       ({[qe_id queueEntry]} ∪ processedExecutions a) a);;
        processExecution_call queueEntry rest
  end.

(** What runs when the parked [processExecution] is woken: its body, the
    [catch] around the [await] in the loop, and then the loop again. *)
Definition assignedWork_resume (queueEntry : QueueEntry)
    (rest : list QueueEntry) : M unit :=
  try_catch
    (processExecution_resume queueEntry)
    (λ error,
       console_error
         ("❌ Error processing execution " +:+ qe_id queueEntry +:+ ":")
         (Some error));;
  assignedWork_loop rest.

Definition assignedWork_onUpdate (entries : list QueueEntry) : M unit :=
  a ← get;
  if isShuttingDown a then mret tt
  else setTimeout (AssignedWorkTimer entries).

(** *** The pending-work subscription (lines 348-382) *)

Definition pendingWork_timer (entries : list QueueEntry) : M unit :=
  activeKernels ← query_activeKernels;
  let ourKernel :=
    List.find (λ k, bool_decide (ks_sessionId k = SESSION_ID)) activeKernels in
  match ourKernel with
  | None => mret tt
  | Some _ =>
      match head entries with
      | Some firstPending =>
          if bool_decide (qe_status firstPending = "pending") then
            try_catch
              (commit (executionAssigned (qe_id firstPending) SESSION_ID))
              (λ _error, mret tt)
          else mret tt
      | None => mret tt
      end
  end.

Definition pendingWork_onUpdate (entries : list QueueEntry) : M unit :=
  a ← get;
  if isShuttingDown a then mret tt
  else
    (if bool_decide (0 < length entries)%nat then
       console_log ("📋 " +:+ pretty (length entries)
                      +:+ " pending execution(s)")
     else mret tt);;
    setTimeout (PendingWorkTimer entries).

(** *** The active-kernels subscription (lines 385-390) *)

Definition activeKernels_onUpdate (_entries : list KernelSession) : M unit :=
  a ← get;
  if isShuttingDown a then mret tt else mret tt.

(** *** Heartbeat (lines 393-405) *)

Definition heartbeat : M unit :=
  a ← get;
  if isShuttingDown a then mret tt
  else
    try_catch
      (timestamp ← newDate;
       commit (kernelSessionHeartbeat SESSION_ID "ready" timestamp))
      (λ error, console_warn "⚠️ Heartbeat failed:" error).

(** *** Shutdown (lines 408-447) *)

Definition unsubscribe (s : Sub) : M unit :=
  a ← get;
  match get_subscription s a with
  | Some h => emit (Unsubscribe h);; modify (set_subscription s None)
  | None => mret tt
  end.

(** What [shutdown] is left waiting for at its [await] (line 444). *)
Inductive Await :=
| AwaitUndefined
    (* [store.shutdown] is undefined: [await undefined] resumes in a
       microtask, before the turn is over *)
| AwaitPromise (t : Task).
    (* the promise of [store.shutdown()] settles in a later turn *)

(** Lines 408-444: [shutdown] from its entry to its [await].  [None] when
    the guard returned at once. *)
Definition shutdown_sync : M (option Await) :=
  a ← get;
  if isShuttingDown a then mret None
  else
    modify (set_isShuttingDown true);;
    console_log "🛑 Shutting down...";;
    emit ClearInterval;;
    modify (set_heartbeatInterval false);;
    unsubscribe AssignedWork;;
    unsubscribe PendingWork;;
    unsubscribe ActiveKernels;;
    try_catch
      (commit (kernelSessionTerminated SESSION_ID "shutdown"))
      (λ error, console_warn "⚠️ Failed to mark session as terminated:" error);;
    match store_shutdown w with
    | None => mret (Some AwaitUndefined)
    | Some None =>
        emit StoreShutdown;; mret (Some (AwaitPromise ShutdownAwait))
    | Some (Some e) =>
        emit StoreShutdown;; mret (Some (AwaitPromise (ShutdownRejected e)))
    end.

(** [shutdown] called in a turn that goes on normally (a signal listener):
    what it awaits is parked, or resumed at once when there was nothing to
    wait for, and then line 446 runs. *)
Definition shutdown : M unit :=
  awaiting ← shutdown_sync;
  match awaiting with
  | None => mret tt
  | Some AwaitUndefined => Deno_exit 0
  | Some (AwaitPromise t) => setTimeout t
  end.

(** Lines 453-461: the global listeners.  Each logs and calls [shutdown],
    which runs up to its [await] and hands back a promise that the listener
    drops. *)
Definition on_unhandledrejection (reason : exn) : M unit :=
  console_error "💥 Unhandled rejection:" (Some reason);;
  shutdown_sync;;
  mret tt.

Definition on_error (error : exn) : M unit :=
  console_error "💥 Uncaught error:" (Some error);;
  shutdown_sync;;
  mret tt.

(** What Deno does with an error or a rejection whose event no listener
    has [preventDefault]ed: it reports it and ends the process with
    status 1, before any microtask or timer can run. *)
Definition uncaught {A} (e : exn) : M A :=
  emit (Console LError "error: Uncaught" (Some e));;
  Deno_exit 1.

(** An [unhandledrejection] or [error] event from dispatch to the end:
    neither listener calls [preventDefault]. *)
Definition rejection_event (reason : exn) : M unit :=
  on_unhandledrejection reason;;
  uncaught reason.

Definition error_event (error : exn) : M unit :=
  on_error error;;
  uncaught error.

(** ** The event loop *)

Definition run_task (t : Task) : M unit :=
  match t with
  | AssignedWorkTimer entries => assignedWork_loop entries
  | ProcessExecutionAwait queueEntry rest =>
      assignedWork_resume queueEntry rest
  | PendingWorkTimer entries => pendingWork_timer entries
  | ShutdownAwait => Deno_exit 0
  | ShutdownRejected reason => rejection_event reason
  end.

(** What the outside world can do to the process. *)
Inductive Action :=
| AssignedWorkUpdate (entries : list QueueEntry)
    (* the store calls the assigned-work [onUpdate] *)
| PendingWorkUpdate (entries : list QueueEntry)
    (* the store calls the pending-work [onUpdate] *)
| ActiveKernelsUpdate (entries : list KernelSession)
    (* the store calls the active-kernels [onUpdate] *)
| HeartbeatTick
    (* the 15 s interval elapses *)
| TimerFires (i : nat)
    (* the event loop runs the i-th parked task *)
| Signal
    (* SIGINT or SIGTERM *)
| UnhandledRejection (reason : exn)
| UncaughtError (error : exn)
| StoreSync (cs : list Cell) (ks : list KernelSession).
    (* other clients' events change the materialised tables *)

(** One turn of the event loop.  A turn whose callback lets an exception
    escape raises the global [error] event. *)
Definition turn (m : M unit) (a : Agent) : Agent :=
  match m a with
  | (Throw e, a') => (error_event e a').2
  | (_, a') => a'
  end.

(** Nothing happens in a process that has exited.  A notification may
    reach a callback whatever the state of its subscription (the callback
    guards itself with [isShuttingDown]), and parked tasks may run in any
    order, which covers the first-in first-out order of real timers. *)
Definition step (act : Action) (a : Agent) : Agent :=
  if bool_decide (exited a = None) then
    match act with
    | AssignedWorkUpdate entries => turn (assignedWork_onUpdate entries) a
    | PendingWorkUpdate entries => turn (pendingWork_onUpdate entries) a
    | ActiveKernelsUpdate entries => turn (activeKernels_onUpdate entries) a
    | HeartbeatTick => if heartbeatInterval a then turn heartbeat a else a
    | TimerFires i =>
        match timers a !! i with
        | Some t => turn (run_task t) (set_timers (delete i (timers a)) a)
        | None => a
        end
    | Signal => turn shutdown a
    | UnhandledRejection reason => turn (rejection_event reason) a
    | UncaughtError error => turn (error_event error) a
    | StoreSync cs ks => set_tables cs ks a
    end
  else a.

Definition run (acts : list Action) (a : Agent) : Agent :=
  foldl (λ a act, step act a) a acts.

(** The agent as it stands after lines 158-405 have run: all three
    subscriptions taken, the heartbeat armed, nothing executed yet. *)
Definition started (a : Agent) : Agent :=
  set_heartbeatInterval true
    (set_subscription ActiveKernels (Some ActiveKernels)
       (set_subscription PendingWork (Some PendingWork)
          (set_subscription AssignedWork (Some AssignedWork)
             (set_processedExecutions ∅ (set_isShuttingDown false a))))).

End Agent.

(** ** Start-up (lines 29-156) *)

Record Args := mkArgs {
  arg_notebook : option string;
  arg_auth_token : option string;
  arg_sync_url : option string;
  arg_kernel_id : option string;
  arg_help : bool;
}.

Record DenoEnv := mkDenoEnv {
  env_NOTEBOOK_ID : option string;
  env_AUTH_TOKEN : option string;
  env_LIVESTORE_SYNC_URL : option string;
  env_KERNEL_ID : option string;
  pid : Z;
  random36 : string;       (* [Math.random().toString(36).slice(2)] *)
}.

Definition help_text : string := "
🦕 Deno Runtime Agent for Anode

Usage:
  deno run --allow-net --allow-env main.ts [OPTIONS]

Required Options:
  --notebook, -n <id>        Notebook ID to connect to
  --auth-token, -t <token>   Authentication token for sync

Optional Options:
  --sync-url, -s <url>       WebSocket URL for LiveStore sync
                             (default: wss://anode-docworker.rgbkrk.workers.dev)
  --kernel-id, -k <id>       Unique kernel identifier
                             (default: deno-kernel-{pid})
  --help, -h                 Show this help message

Examples:
  deno run --allow-net --allow-env main.ts -n my-notebook -t your-token
  deno run --allow-net --allow-env main.ts --notebook=test --auth-token=abc123

Environment Variables (fallback):
  NOTEBOOK_ID, AUTH_TOKEN, LIVESTORE_SYNC_URL, KERNEL_ID
  ".

Section Startup.

Variable w : World.
Variable args : Args.
Variable env : DenoEnv.

Definition NOTEBOOK_ID : option string :=
  js_or (arg_notebook args) (env_NOTEBOOK_ID env).
Definition AUTH_TOKEN : option string :=
  js_or (arg_auth_token args) (env_AUTH_TOKEN env).
Definition SYNC_URL : string :=
  js_nullish (js_or (arg_sync_url args) (env_LIVESTORE_SYNC_URL env))
    "wss://anode-docworker.rgbkrk.workers.dev".
Definition KERNEL_ID : string :=
  js_nullish (js_or (arg_kernel_id args) (env_KERNEL_ID env))
    ("deno-kernel-" +:+ pretty (pid env)).

(** [`${KERNEL_ID}-${Date.now()}-${Math.random().toString(36).slice(2)}`] *)
Definition SESSION_ID (now : Z) : string :=
  KERNEL_ID +:+ "-" +:+ pretty now +:+ "-" +:+ random36 env.

Definition registration (sessionId : string) : Event :=
  kernelSessionStarted sessionId KERNEL_ID "echo"
    (mkCapabilities true false true).

(** [await createStorePromise(...)] *)
Definition createStorePromise : M unit :=
  match createStore_throws w with
  | Some e => throw e
  | None => mret tt
  end.

(** The module body.  The final keep-alive loop (lines 466-468) only polls
    [isShuttingDown] and has no effect of its own; it is left out. *)
Definition main : M unit :=
  (if arg_help args then console_log help_text;; Deno_exit 0 else mret tt);;
  (if negb (truthy AUTH_TOKEN) then
     console_error "❌ AUTH_TOKEN is required." None;;
     console_error
       "   Provide via: --auth-token <token> or AUTH_TOKEN environment variable"
       None;;
     console_error "   Use --help for more information" None;;
     Deno_exit 1
   else mret tt);;
  (if negb (truthy NOTEBOOK_ID) then
     console_error "❌ NOTEBOOK_ID is required." None;;
     console_error
       "   Provide via: --notebook <id> or NOTEBOOK_ID environment variable"
       None;;
     console_error
       "   Example: deno run --allow-net --allow-env main.ts --notebook=my-notebook --auth-token=your-token"
       None;;
     console_error "   Use --help for more information" None;;
     Deno_exit 1
   else mret tt);;
  now ← newDate w;
  let sessionId := SESSION_ID now in
  console_log ("🦕 Starting echo agent for notebook: "
                 +:+ js_nullish NOTEBOOK_ID "");;
  createStorePromise;;
  try_catch
    (commit w (registration sessionId);;
     timestamp ← newDate w;
     commit w (kernelSessionHeartbeat sessionId "ready" timestamp);;
     console_log "✅ Connected and ready")
    (λ error,
       console_error "❌ Failed to register kernel session:" (Some error);;
       throw error);;
  modify started;;
  console_log "🔌 Press Ctrl+C to stop".

(** The process before the module runs. *)
Definition boot : Agent :=
  mkAgent false ∅ None None None false [] [] 0 0 [] None [].

(** Running the module under Deno: an exception that escapes the module is
    reported on stderr and the process exits with status 1. *)
Definition deno_run : Agent :=
  match main boot with
  | (Throw e, a) =>
      (Deno_exit (A:=unit) 1
         (set_trace (trace a ++ [Console LError "error: Uncaught" (Some e)]) a)).2
  | (_, a) => a
  end.

End Startup.

(** ** Vocabulary for the statements *)

Definition accepts_all (w : World) : Prop :=
  ∀ tr e, commit_throws w tr e = None.

Definition clock_monotone (w : World) : Prop :=
  ∀ i j : nat, (i ≤ j)%nat → clock w i ≤ clock w j.

Definition is_completion (e : Event) : bool :=
  match e with executionCompleted _ _ _ _ _ _ => true | _ => false end.

Definition is_outputAdded (e : Event) : bool :=
  match e with cellOutputAdded _ _ _ _ _ _ => true | _ => false end.

(** The queue identifiers of the completion events in a list of events. *)
Definition completed_ids (es : list Event) : list string :=
  omap (λ e, match e with
             | executionCompleted queueId _ _ _ _ _ => Some queueId
             | _ => None
             end) es.

Definition failure_completions_accepted (w : World) : Prop :=
  ∀ tr queueId cellId message completedAt duration,
    commit_throws w tr
      (executionCompleted queueId cellId "error" message completedAt duration)
    = None.

(** The steps of the shutdown sequence, as they appear in a trace. *)
Definition is_teardown (x : Effect) : bool :=
  match x with
  | ClearInterval | Unsubscribe _ | StoreShutdown | Exit _ => true
  | Commit (kernelSessionTerminated _ _) _ => true
  | _ => false
  end.

Definition teardown (tr : list Effect) : list Effect :=
  filter (λ x, is_teardown x) tr.

(** The queue identifiers of the executions parked at their [await]. *)
Definition inflight (ts : list Task) : list string :=
  omap (λ t, match t with
             | ProcessExecutionAwait queueEntry _ => Some (qe_id queueEntry)
             | _ => None
             end) ts.

(** A computation that leaves the bookkeeping of executions alone: it lets
    no exception escape, keeps the ledger, and adds no invocation, no
    committed completion and no parked execution. *)
Definition ledger_quiet (m : M unit) : Prop :=
  ∀ a, let r := m a in
    (∀ e, r.1 ≠ Throw e) ∧
    processedExecutions r.2 = processedExecutions a ∧
    ∃ new nt, trace r.2 = trace a ++ new ∧ timers r.2 = timers a ++ nt ∧
      invocations new = [] ∧ completed_ids (committed new) = [] ∧
      inflight nt = [].

(** Completion events in the log together with executions still parked:
    every execution that was started is in one of the two. *)
Definition accounted (a : Agent) : list string :=
  completed_ids (committed (trace a)) ++ inflight (timers a).

Definition invoked_ids (a : Agent) : list string :=
  map qe_id (invocations (trace a)).

(** The state right after [processExecution(queueEntry)] has been called
    from the loop and has parked at its [await]. *)
Definition parked (queueEntry : QueueEntry) (rest : list QueueEntry)
    (a : Agent) : Agent :=
  set_timers (timers a ++ [ProcessExecutionAwait queueEntry rest])
    (set_trace
       (trace a ++
          [Invoked queueEntry;
           Console LLog ("⚡ Processing execution for cell "
                           +:+ qe_cellId queueEntry) None])
       (set_processedExecutions
          ({[qe_id queueEntry]} ∪ processedExecutions a) a)).

(** How often [processExecution] was entered for an identifier, and how
    many completion events the log holds for it. *)
Definition invocations_of (id : string) (a : Agent) : nat :=
  length (filter (λ x, x = id) (invoked_ids a)).

Definition completions_of (id : string) (a : Agent) : nat :=
  length (filter (λ x, x = id) (completed_ids (committed (trace a)))).

(** A process in which the engine has not run yet: no execution invoked or
    completed, no teardown step taken, nothing scheduled, still alive. *)
Definition pristine (a : Agent) : Prop :=
  invocations (trace a) = [] ∧
  completed_ids (committed (trace a)) = [] ∧
  teardown (trace a) = [] ∧
  timers a = [] ∧
  exited a = None.

(** The ledger invariant: identifiers are invoked at most once; the ledger
    holds exactly the invoked identifiers; completions in the log and parked
    executions never overlap or repeat, and belong to invoked identifiers;
    and when the store takes every failure completion, every invoked
    identifier is still parked or has its completion in the log. *)
Definition ledger_inv (w : World) (a : Agent) : Prop :=
  NoDup (invoked_ids a) ∧
  (∀ id, id ∈ processedExecutions a ↔ id ∈ invoked_ids a) ∧
  NoDup (accounted a) ∧
  (∀ id, id ∈ accounted a → id ∈ processedExecutions a) ∧
  (failure_completions_accepted w →
   ∀ id, id ∈ processedExecutions a → id ∈ accounted a).

(** *** Lifecycle *)

Definition is_shutdown_task (t : Task) : bool :=
  match t with
  | ShutdownAwait | ShutdownRejected _ => true
  | _ => false
  end.

Definition shutdown_tasks (ts : list Task) : list Task :=
  filter (λ t, is_shutdown_task t) ts.

(** The synchronous part of the shutdown sequence; [r] is the store's
    answer to the termination commit. *)
Definition teardown_steps (SESSION_ID : string) (r : option exn)
  : list Effect :=
  [ClearInterval;
   Unsubscribe AssignedWork;
   Unsubscribe PendingWork;
   Unsubscribe ActiveKernels;
   Commit (kernelSessionTerminated SESSION_ID "shutdown") r].

(** What the lifecycle of the process depends on. *)
Definition lifecycle_view (a : Agent) :=
  (isShuttingDown a, assignedWorkSubscription a, pendingWorkSubscription a,
   activeKernelsSubscription a, heartbeatInterval a, exited a,
   teardown (trace a), shutdown_tasks (timers a)).

Definition lifecycle_quiet (m : M unit) : Prop :=
  ∀ a, (∀ e, (m a).1 ≠ Throw e) ∧ lifecycle_view (m a).2 = lifecycle_view a.

(** The call that closes the store, when the store has a [shutdown]. *)
Definition closing (w : World) : list Effect :=
  match store_shutdown w with
  | None => []
  | Some _ => [StoreShutdown]
  end.

(** Running: nothing torn down, all three subscriptions held, the heartbeat
    armed.  Shutting down: the synchronous steps done once, in order, and
    then either the continuation of [shutdown] is still parked, or it has
    run and the process has exited with status 0, or an error or rejection
    event has ended the process with status 1. *)
Definition lifecycle_inv (w : World) (SESSION_ID : string) (a : Agent)
  : Prop :=
  if isShuttingDown a then
    heartbeatInterval a = false ∧
    assignedWorkSubscription a = None ∧
    pendingWorkSubscription a = None ∧
    activeKernelsSubscription a = None ∧
    ∃ r,
      (teardown (trace a) = teardown_steps SESSION_ID r ++ closing w ∧
       exited a = None ∧
       match store_shutdown w with
       | None => False
       | Some None => shutdown_tasks (timers a) = [ShutdownAwait]
       | Some (Some e) => shutdown_tasks (timers a) = [ShutdownRejected e]
       end) ∨
      (teardown (trace a)
       = teardown_steps SESSION_ID r ++ closing w ++ [Exit 0] ∧
       exited a = Some 0 ∧
       shutdown_tasks (timers a) = [] ∧
       match store_shutdown w with
       | Some (Some _) => False
       | _ => True
       end) ∨
      (teardown (trace a)
       = teardown_steps SESSION_ID r ++ closing w ++ [Exit 1] ∧
       exited a = Some 1)
  else
    teardown (trace a) = [] ∧
    assignedWorkSubscription a = Some AssignedWork ∧
    pendingWorkSubscription a = Some PendingWork ∧
    activeKernelsSubscription a = Some ActiveKernels ∧
    heartbeatInterval a = true ∧
    exited a = None ∧
    shutdown_tasks (timers a) = [].

(** The teardown steps that are [shutdown]'s own work, the exit apart. *)
Definition is_exit (x : Effect) : bool :=
  match x with Exit _ => true | _ => false end.

Definition teardown_work (tr : list Effect) : list Effect :=
  filter (λ x, is_teardown x && negb (is_exit x)) tr.

(** The module state apart from whether the process is still alive: the
    flag, the ledger, the three subscription handles, the heartbeat timer,
    the tables and the parked tasks. *)
Definition same_handles (a a' : Agent) : Prop :=
  isShuttingDown a' = isShuttingDown a ∧
  processedExecutions a' = processedExecutions a ∧
  assignedWorkSubscription a' = assignedWorkSubscription a ∧
  pendingWorkSubscription a' = pendingWorkSubscription a ∧
  activeKernelsSubscription a' = activeKernelsSubscription a ∧
  heartbeatInterval a' = heartbeatInterval a ∧
  cells a' = cells a ∧
  kernelSessions a' = kernelSessions a ∧
  timers a' = timers a.

(** The actions that call [shutdown]: a signal, an unhandled rejection, an
    uncaught error. *)
Definition is_trigger (act : Action) : bool :=
  match act with
  | Signal | UnhandledRejection _ | UncaughtError _ => true
  | _ => false
  end.

(** The module state that only the agent's own callbacks change. *)
Definition same_module_state (a a' : Agent) : Prop :=
  isShuttingDown a' = isShuttingDown a ∧
  processedExecutions a' = processedExecutions a ∧
  assignedWorkSubscription a' = assignedWorkSubscription a ∧
  pendingWorkSubscription a' = pendingWorkSubscription a ∧
  activeKernelsSubscription a' = activeKernelsSubscription a ∧
  heartbeatInterval a' = heartbeatInterval a ∧
  cells a' = cells a ∧
  kernelSessions a' = kernelSessions a ∧
  timers a' = timers a ∧
  exited a' = exited a.

(** *** What a running agent emits *)

(** The identifiers of the output-added events offered to the store. *)
Definition output_ids (tr : list Effect) : list string :=
  omap (λ x, match x with
             | Commit (cellOutputAdded id _ _ _ _ _) _ => Some id
             | _ => None
             end) tr.

(** The timestamps of the heartbeat events offered to the store. *)
Definition heartbeats (tr : list Effect) : list Z :=
  omap (λ x, match x with
             | Commit (kernelSessionHeartbeat _ _ timestamp) _ => Some timestamp
             | _ => None
             end) tr.

(** The shape of every event a running agent offers to the store: it names
    the agent's own session and kernel, outputs are single [text/plain]
    results at position 0, a completion carries an error message exactly
    when its status is ["error"], and every timestamp is a clock reading,
    a duration being the difference of a later and an earlier one. *)
Definition event_ok (w : World) (KERNEL_ID SESSION_ID : string) (e : Event)
  : Prop :=
  match e with
  | kernelSessionStarted _ _ _ _ => False
  | kernelSessionHeartbeat sessionId status timestamp =>
      sessionId = SESSION_ID ∧ status = "ready" ∧ ∃ i, timestamp = clock w i
  | kernelSessionTerminated sessionId reason =>
      sessionId = SESSION_ID ∧ reason = "shutdown"
  | executionAssigned _ kernelSessionId => kernelSessionId = SESSION_ID
  | executionStarted _ _ kernelSessionId startedAt =>
      kernelSessionId = SESSION_ID ∧ ∃ i, startedAt = clock w i
  | cellOutputsCleared _ clearedBy => clearedBy = "kernel-" +:+ KERNEL_ID
  | cellOutputAdded _ _ outputType data metadata position =>
      outputType = "execute_result" ∧ metadata = [] ∧ position = 0 ∧
      ∃ payload, data = [("text/plain", payload)]
  | executionCompleted _ _ status error completedAt executionDurationMs =>
      (status = "success" ∧ error = None ∨
       status = "error" ∧ ∃ message, error = Some message) ∧
      ∃ i j : nat, (i ≤ j)%nat ∧ completedAt = clock w j ∧
                   executionDurationMs = clock w j - clock w i
  end.

Definition effect_ok (w : World) (KERNEL_ID SESSION_ID : string) (x : Effect)
  : Prop :=
  match x with
  | Commit e _ => event_ok w KERNEL_ID SESSION_ID e
  | Exit code => code = 0 ∨ code = 1
  | _ => True
  end.

(** [a'] is a later state of [a]: the trace has only grown, by effects of
    the shape above; each output-added event took the next UUID; the ledger
    has not lost an entry; a set shutdown flag stays set and silences the
    heartbeat; and the process is as alive as before or has exited with
    status 0 or 1. *)
Definition advances (w : World) (KERNEL_ID SESSION_ID : string)
    (a a' : Agent) : Prop :=
  ∃ new,
    trace a' = trace a ++ new ∧
    Forall (effect_ok w KERNEL_ID SESSION_ID) new ∧
    (uuids a ≤ uuids a')%nat ∧
    output_ids new
    = map (randomUUID w) (seq (uuids a) (uuids a' - uuids a)) ∧
    processedExecutions a ⊆ processedExecutions a' ∧
    (isShuttingDown a = true →
     isShuttingDown a' = true ∧ heartbeats new = []) ∧
    (exited a' = exited a ∨ exited a' = Some 0 ∨ exited a' = Some 1).

(** The entries of a notification the loop will execute, in order: those
    whose identifier is not in the ledger, each identifier once. *)
Fixpoint fresh_entries (ledger : gset string) (entries : list QueueEntry)
  : list QueueEntry :=
  match entries with
  | [] => []
  | queueEntry :: rest =>
      if bool_decide (qe_id queueEntry ∈ ledger)
      then fresh_entries ledger rest
      else queueEntry :: fresh_entries ({[qe_id queueEntry]} ∪ ledger) rest
  end.

(** ** Sample worlds and rows *)

Definition steady_clock (n : nat) : Z := 1000 + Z.of_nat n.

(** A store that takes every commit. *)
Definition accepting_world : World :=
  mkWorld steady_clock (λ n, "uuid-" +:+ pretty n) (λ _ _, None)
    (Some None) None.

(** A store that refuses every commit. *)
Definition rejecting_world : World :=
  mkWorld steady_clock (λ n, "uuid-" +:+ pretty n)
    (λ _ _, Some (JsError "commit rejected")) (Some None) None.

(** A store that refuses the first completion event it is offered and
    takes everything else. *)
Definition hiccup_world : World :=
  mkWorld steady_clock (λ n, "uuid-" +:+ pretty n)
    (λ tr e,
       if is_completion e && forallb (λ x, negb (is_completion x)) (attempted tr)
       then Some (JsError "commit rejected") else None)
    (Some None) None.

(** A store that refuses assignment events only. *)
Definition contended_world : World :=
  mkWorld steady_clock (λ n, "uuid-" +:+ pretty n)
    (λ _ e, match e with
            | executionAssigned _ _ => Some (JsError "already assigned")
            | _ => None
            end)
    (Some None) None.

Definition entry_w1 : QueueEntry :=
  mkQueueEntry "w1" "c1" "assigned" 5 (Some "s1").
Definition pending_w1 : QueueEntry := mkQueueEntry "w1" "c1" "pending" 5 None.
Definition code_c1 : Cell := mkCell "c1" "code" (Some "print(1)").
Definition ai_c1 : Cell := mkCell "c1" "ai" (Some "hi").

(** A running agent for session ["s1"], which the store lists as active. *)
Definition sample_agent (cs : list Cell) : Agent :=
  set_tables cs [mkKernelSession "s1" true] (started boot).

(** The same notification delivered twice before its timer callback runs. *)
Definition duplicate_delivery : list Action :=
  [StoreSync [code_c1] [mkKernelSession "s1" true];
   AssignedWorkUpdate [entry_w1];
   AssignedWorkUpdate [entry_w1];
   TimerFires 0; TimerFires 0; TimerFires 0].

(** A start with a notebook identifier and no authentication token. *)
Definition no_token_args : Args := mkArgs (Some "nb1") None None None false.
Definition empty_env : DenoEnv := mkDenoEnv None None None None 4242 "x7".

(** A store whose [shutdown] rejects, and one that has no [shutdown]. *)
Definition stuck_world : World :=
  mkWorld steady_clock (λ n, "uuid-" +:+ pretty n) (λ _ _, None)
    (Some (Some (JsError "close failed"))) None.

Definition bare_world : World :=
  mkWorld steady_clock (λ n, "uuid-" +:+ pretty n) (λ _ _, None) None None.

(** A store that refuses heartbeats only, and one that cannot be reached. *)
Definition deaf_world : World :=
  mkWorld steady_clock (λ n, "uuid-" +:+ pretty n)
    (λ _ e, match e with
            | kernelSessionHeartbeat _ _ _ => Some (JsError "not now")
            | _ => None
            end)
    (Some None) None.

Definition offline_world : World :=
  mkWorld steady_clock (λ n, "uuid-" +:+ pretty n) (λ _ _, None)
    (Some None) (Some (JsError "connection refused")).

(** A complete command line, and one that only asks for help. *)
Definition full_args : Args :=
  mkArgs (Some "nb1") (Some "secret") None (Some "k1") false.
Definition help_args : Args := mkArgs None None None None true.

(** * Reading a trace that was extended *)

Lemma committed_app tr1 tr2 :
  committed (tr1 ++ tr2) = committed tr1 ++ committed tr2.
Proof. apply omap_app. Qed.

Lemma attempted_app tr1 tr2 :
  attempted (tr1 ++ tr2) = attempted tr1 ++ attempted tr2.
Proof. apply omap_app. Qed.

Lemma invocations_app tr1 tr2 :
  invocations (tr1 ++ tr2) = invocations tr1 ++ invocations tr2.
Proof. apply omap_app. Qed.

Lemma completed_ids_app es1 es2 :
  completed_ids (es1 ++ es2) = completed_ids es1 ++ completed_ids es2.
Proof. apply omap_app. Qed.

Lemma inflight_app ts1 ts2 : inflight (ts1 ++ ts2) = inflight ts1 ++ inflight ts2.
Proof. apply omap_app. Qed.

Lemma teardown_app tr1 tr2 :
  teardown (tr1 ++ tr2) = teardown tr1 ++ teardown tr2.
Proof. apply filter_app. Qed.

Lemma shutdown_tasks_app ts1 ts2 :
  shutdown_tasks (ts1 ++ ts2) = shutdown_tasks ts1 ++ shutdown_tasks ts2.
Proof. apply filter_app. Qed.

(** * Proof automation *)

(** Reduce field reads of updated records, and nothing else. *)
Ltac fields :=
  cbn [set_isShuttingDown set_processedExecutions set_subscription
       set_heartbeatInterval set_tables set_dates set_uuids set_timers
       set_exited set_trace isShuttingDown processedExecutions
       assignedWorkSubscription pendingWorkSubscription
       activeKernelsSubscription heartbeatInterval cells kernelSessions dates
       uuids timers exited trace fst snd].

(** Unfold the monad and the primitive operations of synchronous code. *)
Ltac mrun :=
  cbv [mbind mret M_bind M_ret get modify emit console_log console_error
       console_warn setTimeout throw try_catch commit newDate generateUUID
       query_cells query_activeKernels Deno_exit];
  cbn.

Ltac oracle_cases :=
  repeat (match goal with
          | |- context [commit_throws ?w ?t ?e] =>
              destruct (commit_throws w t e) eqn:?; mrun
          end).

(** Unfolding the agent's operations by name. *)
Ltac open_processExecution_resume := unfold processExecution_resume.
Ltac open_pendingWork_timer := unfold pendingWork_timer.
Ltac open_shutdown := unfold shutdown, shutdown_sync, unsubscribe.
Ltac open_events :=
  unfold rejection_event, error_event, on_unhandledrejection, on_error,
    uncaught.
Ltac open_heartbeat := unfold heartbeat.
Ltac open_assignedWork_resume := unfold assignedWork_resume.
Ltac open_step := unfold step.
Ltac open_run := unfold run.
Ltac open_run_task := cbn [run_task].
Ltac open_exit_task := cbv [run_task Deno_exit].
Ltac open_ledger_inv := unfold ledger_inv, invoked_ids, accounted.
Ltac open_ledger_inv_all := unfold ledger_inv, invoked_ids, accounted in *.

Ltac exec_cases :=
  open_processExecution_resume; mrun;
  destruct (head _) as [cell|] eqn:Hq; mrun;
  oracle_cases;
  rewrite <- ?app_assoc; cbn.

Ltac quiet_done :=
  cbn; split_and!; [done..|];
  eexists _, _; split_and!;
  [rewrite <- ?app_assoc; cbn; try reflexivity; symmetry; apply app_nil_r
  |try reflexivity; symmetry; apply app_nil_r
  |done..].

(** Every path through [shutdown], one goal each. *)
Ltac shutdown_cases a :=
  open_shutdown; mrun;
  destruct (isShuttingDown a) eqn:?; mrun;
  [|destruct (assignedWorkSubscription a) eqn:?; mrun;
    (destruct (pendingWorkSubscription a) eqn:?; mrun);
    (destruct (activeKernelsSubscription a) eqn:?; mrun);
    oracle_cases;
    (destruct (store_shutdown _) as [[?|]|] eqn:?; mrun)].

Ltac view_done :=
  split; [done|];
  unfold lifecycle_view; cbn;
  rewrite ?teardown_app, ?shutdown_tasks_app; cbn;
  rewrite ?app_nil_r; reflexivity.

Ltac nodup_distinct :=
  repeat (apply NoDup_cons; split;
          [let Hin := fresh "Hin" in
           intros Hin;
           repeat (apply elem_of_cons in Hin as [Hin|Hin]; [discriminate|]);
           inversion Hin|]);
  apply NoDup_nil_2.

Ltac refute_elem H :=
  repeat (apply elem_of_cons in H as [H|H]; [congruence|]);
  by inversion H.

(** * Properties *)

Section Properties.

Variable w : World.
Variables KERNEL_ID SESSION_ID : string.

Local Abbreviation pendingWork_timer := (pendingWork_timer w SESSION_ID).
Local Abbreviation ledger_inv := (ledger_inv w).
Local Abbreviation processExecution_resume :=
  (processExecution_resume w KERNEL_ID SESSION_ID).

(** ** The output of an execution *)

(** C10.  The output computed for a cell is a function of its type and
    source alone: type ["execute_result"] always, no metadata, and a single
    ["text/plain"] payload that is [Beep boop. You said "<source>"] for an
    ["ai"] cell and the source itself otherwise, a missing source counting
    as the empty string. *)
Theorem outputData_spec (cell : Cell) :
  let src := match source cell with Some s => s | None => "" end in
  od_type (outputData cell) = "execute_result" ∧
  od_metadata (outputData cell) = [] ∧
  od_data (outputData cell) =
    [("text/plain",
      if bool_decide (cellType cell = "ai")
      then "Beep boop. You said " +:+ dquote +:+ src +:+ dquote
      else src)] ∧
  ∀ cell' : Cell,
    cellType cell' = cellType cell → source cell' = source cell →
    outputData cell' = outputData cell.
Proof.
  assert (Hsrc : or_empty (source cell)
                 = match source cell with Some s => s | None => "" end).
  { unfold or_empty, js_or, truthy. destruct (source cell) as [s|]; [|done].
    case_bool_decide; simpl; congruence. }
  cbn zeta. split_and!.
  - unfold outputData. by case_bool_decide.
  - unfold outputData. by case_bool_decide.
  - unfold outputData. rewrite Hsrc. by case_bool_decide.
  - intros cell' Ht Hs. unfold outputData. by rewrite Ht, Hs.
Qed.

(** ** The claim coordinator *)

(** C3.  A pending-work refresh makes no commit itself and schedules at most
    one timer callback; that callback makes zero or one commit attempt:
    none when this session is missing from the active sessions or the
    pending sequence is empty, and otherwise at most one, which assigns the
    head entry's identifier to [SESSION_ID]. *)
Theorem pendingWork_commit_attempts (entries : list QueueEntry) (a : Agent) :
  let a1 := (pendingWork_onUpdate entries a).2 in
  let a2 := (pendingWork_timer entries a).2 in
  let active := filter (λ k, ks_isActive k = true) (kernelSessions a) in
  attempted (trace a1) = attempted (trace a) ∧
  (timers a1 = timers a ∨ timers a1 = timers a ++ [PendingWorkTimer entries]) ∧
  ∃ new : list Event,
    attempted (trace a2) = attempted (trace a) ++ new ∧
    (length new ≤ 1)%nat ∧
    (SESSION_ID ∉ map ks_sessionId active ∨ entries = [] → new = []) ∧
    (∀ e, e ∈ new →
       ∃ firstPending, head entries = Some firstPending ∧
         e = executionAssigned (qe_id firstPending) SESSION_ID).
Proof.
  cbn zeta. split_and!.
  - unfold pendingWork_onUpdate. mrun.
    destruct (isShuttingDown a); [done|]. cbn.
    case_bool_decide; cbn; [|done].
    unfold attempted. rewrite omap_app. cbn. by rewrite app_nil_r.
  - unfold pendingWork_onUpdate. mrun.
    destruct (isShuttingDown a); [by left|]. cbn.
    case_bool_decide; cbn; by right.
  - open_pendingWork_timer. mrun.
    destruct (List.find _ _) as [k|] eqn:Hfind.
    + destruct entries as [|q rest]; cbn.
      { exists []. rewrite app_nil_r. split_and!; [done|cbn; lia|done|].
        intros e He. inversion He. }
      case_bool_decide as Hst; cbn.
      * exists [executionAssigned (qe_id q) SESSION_ID].
        split_and!.
        -- destruct (commit_throws w (trace a) _); cbn;
             unfold attempted; rewrite omap_app; done.
        -- cbn; lia.
        -- intros [Hn|?]; [|done]. exfalso. apply Hn.
           apply find_some in Hfind as [Hin Heq].
           apply bool_decide_eq_true in Heq. rewrite <- Heq.
           apply list_elem_of_fmap. exists k. split; [done|].
           by apply list_elem_of_In.
        -- intros e He. apply list_elem_of_singleton in He. eauto.
      * exists []. rewrite app_nil_r. split_and!; [done|cbn; lia|done|].
        intros e He. inversion He.
    + exists []. rewrite app_nil_r. split_and!; [done|cbn; lia|done|].
      intros e He. inversion He.
Qed.

(** C6.  When the store rejects the assignment commit, the timer callback
    still completes normally and the only thing that has happened is that
    one rejected attempt: nothing is written to the console, no exception
    escapes, no second attempt is made and no timer is scheduled, so the
    entry is not touched again before the next refresh. *)
Theorem assignment_rejection_absorbed
    (entries : list QueueEntry) (a : Agent) (ourKernel : KernelSession)
    (firstPending : QueueEntry) (rejection : exn) :
  List.find (λ k, bool_decide (ks_sessionId k = SESSION_ID))
    (filter (λ k, ks_isActive k = true) (kernelSessions a)) = Some ourKernel →
  head entries = Some firstPending →
  qe_status firstPending = "pending" →
  commit_throws w (trace a)
    (executionAssigned (qe_id firstPending) SESSION_ID) = Some rejection →
  let assignment := executionAssigned (qe_id firstPending) SESSION_ID in
  let r := pendingWork_timer entries a in
  r = (Ok tt, set_trace (trace a ++ [Commit assignment (Some rejection)]) a) ∧
  console_of (trace r.2) = console_of (trace a) ∧
  committed (trace r.2) = committed (trace a) ∧
  attempted (trace r.2) = attempted (trace a) ++ [assignment] ∧
  timers r.2 = timers a.
Proof.
  intros Hfind Hhd Hst Hrej. cbn zeta.
  assert (Heq : pendingWork_timer entries a
    = (Ok tt, set_trace (trace a ++
         [Commit (executionAssigned (qe_id firstPending) SESSION_ID)
            (Some rejection)]) a)).
  { open_pendingWork_timer. mrun.
    rewrite Hfind, Hhd. rewrite bool_decide_eq_true_2 by done.
    by rewrite Hrej. }
  rewrite Heq. cbn. unfold console_of, committed, attempted.
  rewrite !omap_app. cbn. by rewrite !app_nil_r.
Qed.

(** ** The execution engine *)

Lemma query_cells_id (id : string) (cs : list Cell) (cell : Cell) :
  head (filter (λ c, cell_id c = id) cs) = Some cell → cell_id cell = id.
Proof.
  intros H. apply head_Some_elem_of in H.
  by apply list_elem_of_filter in H as [? _].
Qed.

(** What one execution leaves behind, whatever the store answers: it never
    lets an exception escape, touches no module state, and adds to the
    trace no invocation, no teardown step and at most one committed
    completion event, which is for its own queue entry. *)
Lemma processExecution_resume_frame (queueEntry : QueueEntry) (a : Agent) :
  let r := processExecution_resume queueEntry a in
  r.1 = Ok tt ∧ same_module_state a r.2 ∧
  ∃ new, trace r.2 = trace a ++ new ∧
    invocations new = [] ∧ teardown new = [] ∧
    (completed_ids (committed new) = [] ∨
     completed_ids (committed new) = [qe_id queueEntry]) ∧
    (failure_completions_accepted w →
     completed_ids (committed new) = [qe_id queueEntry]).
Proof.
  cbn zeta. exec_cases.
  all: (split; [done|]); (split; [by repeat split|]).
  all: eexists; (split; [reflexivity|]); cbn.
  all: split_and!; try done; try (by left); try (by right).
  all: intros Hacc.
  all: repeat match goal with
         | H : commit_throws _ _ (executionCompleted _ _ "error" _ _ _) = Some _
           |- _ => rewrite Hacc in H; discriminate
         end.
Qed.

(** C4, as the code has it.  When the target cell exists and the store
    accepts the commits, one execution appends to the trace, in this order:
    execution-started carrying the timestamp read on entry, outputs-cleared
    for the target, one output-added at position 0 whose payload is the
    source for an ordinary cell and the [Beep boop] sentence for an ["ai"]
    cell, and execution-completed with status ["success"] whose duration is
    the second clock reading minus the first; the duration is non-negative
    when the clock does not run backwards. *)
Theorem processExecution_success
    (queueEntry : QueueEntry) (a : Agent) (cell : Cell) :
  head (filter (λ c, cell_id c = qe_cellId queueEntry) (cells a)) = Some cell →
  accepts_all w →
  let executionStartTime := clock w (dates a) in
  let executionEndTime := clock w (S (dates a)) in
  let payload :=
    if bool_decide (cellType cell = "ai")
    then "Beep boop. You said " +:+ dquote +:+ or_empty (source cell)
           +:+ dquote
    else or_empty (source cell) in
  let r := processExecution_resume queueEntry a in
  r.1 = Ok tt ∧
  trace r.2 = trace a ++
    [Commit (executionStarted (qe_id queueEntry) (qe_cellId queueEntry)
               SESSION_ID executionStartTime) None;
     Commit (cellOutputsCleared (qe_cellId queueEntry)
               ("kernel-" +:+ KERNEL_ID)) None;
     Commit (cellOutputAdded (randomUUID w (uuids a)) (qe_cellId queueEntry)
               "execute_result" [("text/plain", payload)] [] 0) None;
     Commit (executionCompleted (qe_id queueEntry) (qe_cellId queueEntry)
               "success" None executionEndTime
               (executionEndTime - executionStartTime)) None;
     Console LLog ("✅ Execution completed in "
                     +:+ pretty (executionEndTime - executionStartTime)
                     +:+ "ms") None] ∧
  (clock_monotone w → 0 ≤ executionEndTime - executionStartTime).
Proof.
  intros Hcell Hacc. cbn zeta. split_and!.
  - apply processExecution_resume_frame.
  - open_processExecution_resume. mrun. rewrite Hcell. mrun.
    repeat (rewrite Hacc; mrun).
    rewrite <- !app_assoc. cbn.
    rewrite (query_cells_id _ _ _ Hcell).
    unfold outputData. by case_bool_decide.
  - intros Hmono. specialize (Hmono (dates a) (S (dates a))). lia.
Qed.

(** C5, as the code has it.  When the target cell is not found, or the store
    rejects one of the commits that precede the completion commit, the
    error is caught and no exception escapes; the console gets the error;
    exactly one completion commit is attempted, with status ["error"], the
    message of the caught error ([Cell <id> not found] when the cell is
    missing, and then it is the only commit attempted) and the duration
    counted from the timestamp read on entry; it lands in the log when the
    store accepts it, and otherwise the refusal is written to the console;
    no output-added event is committed. *)
Theorem processExecution_failure (queueEntry : QueueEntry) (a : Agent) :
  let executionStartTime := clock w (dates a) in
  let executionEndTime := clock w (S (dates a)) in
  let r := processExecution_resume queueEntry a in
  let new := drop (length (trace a)) (trace r.2) in
  head (filter (λ c, cell_id c = qe_cellId queueEntry) (cells a)) = None ∨
  (∃ ev e, Commit ev (Some e) ∈ new ∧ is_completion ev = false) →
  r.1 = Ok tt ∧ trace r.2 = trace a ++ new ∧
  ∃ error : exn,
    let failure :=
      executionCompleted (qe_id queueEntry) (qe_cellId queueEntry) "error"
        (Some (error_message error)) executionEndTime
        (executionEndTime - executionStartTime) in
    Console LError "❌ Error in execution:" (Some error) ∈ new ∧
    filter (λ e, is_completion e) (attempted new) = [failure] ∧
    (filter (λ e, is_completion e) (committed new) = [failure] ∨
     filter (λ e, is_completion e) (committed new) = [] ∧
     ∃ commitError,
       last new = Some (Console LError
                          "💥 Failed to mark execution as failed:"
                          (Some commitError))) ∧
    (failure_completions_accepted w → failure ∈ committed new) ∧
    filter (λ e, is_outputAdded e) (committed new) = [] ∧
    (head (filter (λ c, cell_id c = qe_cellId queueEntry) (cells a)) = None →
     error = JsError ("Cell " +:+ qe_cellId queueEntry +:+ " not found") ∧
     attempted new = [failure]).
Proof.
  cbn zeta. exec_cases.
  all: rewrite drop_app_length.
  all: intros Hcause.
  all: try (exfalso; destruct Hcause as [?|(ev & e' & Hin & Hnc)];
            [congruence|];
            repeat (apply elem_of_cons in Hin as [Hin|Hin];
                    [inversion Hin; subst; discriminate|]);
            by inversion Hin).
  all: (split; [done|]); (split; [done|]).
  all: match goal with
       | H : commit_throws _ _ (executionCompleted _ _ "error"
                                  (Some (error_message ?e)) _ _) = _ |- _ =>
           exists e
       | H : commit_throws _ _ (executionCompleted _ _ "error"
                                  (Some ?m) _ _) = _ |- _ =>
           exists (JsError m)
       end.
  all: cbn; split_and!; try done.
  all: try (repeat constructor; fail).
  all: try (by left).
  all: try (right; split; [done|]; eexists; reflexivity).
  all: try (intros Hacc;
            match goal with
            | H : commit_throws _ _ _ = Some _ |- _ =>
                rewrite Hacc in H; discriminate
            end).
  all: try (intros _; repeat constructor).
Qed.

(** ** Handlers that do not touch the bookkeeping of executions *)

Local Abbreviation shutdown := (shutdown w SESSION_ID).
Local Abbreviation heartbeat := (heartbeat w SESSION_ID).
Local Abbreviation assignedWork_resume :=
  (assignedWork_resume w KERNEL_ID SESSION_ID).
Local Abbreviation run_task := (run_task w KERNEL_ID SESSION_ID).
Local Abbreviation step := (step w KERNEL_ID SESSION_ID).
Local Abbreviation run := (run w KERNEL_ID SESSION_ID).

Lemma shutdown_quiet : ledger_quiet shutdown.
Proof. intros a. cbn zeta. shutdown_cases a; quiet_done. Qed.

Lemma rejection_event_quiet reason :
  ledger_quiet (rejection_event w SESSION_ID reason).
Proof. intros a. cbn zeta. open_events. shutdown_cases a; quiet_done. Qed.

Lemma error_event_quiet error : ledger_quiet (error_event w SESSION_ID error).
Proof. intros a. cbn zeta. open_events. shutdown_cases a; quiet_done. Qed.

Lemma assignedWork_onUpdate_quiet entries :
  ledger_quiet (assignedWork_onUpdate entries).
Proof.
  intros a. cbn zeta. unfold assignedWork_onUpdate. mrun.
  destruct (isShuttingDown a); mrun; quiet_done.
Qed.

Lemma pendingWork_onUpdate_quiet entries :
  ledger_quiet (pendingWork_onUpdate entries).
Proof.
  intros a. cbn zeta. unfold pendingWork_onUpdate. mrun.
  destruct (isShuttingDown a); mrun; [quiet_done|].
  case_bool_decide; mrun; quiet_done.
Qed.

Lemma activeKernels_onUpdate_quiet entries :
  ledger_quiet (activeKernels_onUpdate entries).
Proof.
  intros a. cbn zeta. unfold activeKernels_onUpdate. mrun.
  destruct (isShuttingDown a); mrun; quiet_done.
Qed.

Lemma heartbeat_quiet : ledger_quiet heartbeat.
Proof.
  intros a. cbn zeta. open_heartbeat. mrun.
  destruct (isShuttingDown a); mrun; [quiet_done|].
  oracle_cases; quiet_done.
Qed.

Lemma pendingWork_timer_quiet entries :
  ledger_quiet (pendingWork_timer entries).
Proof.
  intros a. cbn zeta. open_pendingWork_timer. mrun.
  destruct (List.find _ _); [|quiet_done].
  destruct entries as [|q rest]; cbn; [quiet_done|].
  case_bool_decide; mrun; [|quiet_done].
  oracle_cases; quiet_done.
Qed.

Lemma Deno_exit_quiet code : ledger_quiet (Deno_exit code).
Proof. intros a. cbn zeta. mrun. quiet_done. Qed.

(** ** The dedup ledger *)

(** The loop skips the entries whose identifier is in the ledger; at the
    first one that is not, it records the identifier and calls
    [processExecution], all in the same synchronous block. *)
Lemma assignedWork_loop_spec (entries : list QueueEntry) (a : Agent) :
  (assignedWork_loop entries a = (Ok tt, a) ∧
   ∀ q, q ∈ entries → qe_id q ∈ processedExecutions a) ∨
  ∃ pre q rest,
    entries = pre ++ q :: rest ∧
    (∀ p, p ∈ pre → qe_id p ∈ processedExecutions a) ∧
    (qe_id q ∉ processedExecutions a) ∧
    assignedWork_loop entries a = (Ok tt, parked q rest a).
Proof.
  induction entries as [|q rest IH].
  - left. split; [done|]. intros q Hq. inversion Hq.
  - cbn [assignedWork_loop]. mrun.
    case_bool_decide as Hin.
    + destruct IH as [[Heq Hall]|(pre & q' & rest' & -> & Hpre & Hq' & Heq)].
      * left. split; [done|]. intros p Hp.
        apply elem_of_cons in Hp as [->|Hp]; auto.
      * right. exists (q :: pre), q', rest'. split_and!; try done.
        intros p Hp. apply elem_of_cons in Hp as [->|Hp]; auto.
    + right. exists [], q, rest. split_and!; try done.
      * intros p Hp. inversion Hp.
      * unfold processExecution_call, parked. mrun.
        by rewrite <- app_assoc.
Qed.

Lemma assignedWork_resume_eq (queueEntry : QueueEntry)
    (rest : list QueueEntry) (a : Agent) :
  assignedWork_resume queueEntry rest a
  = assignedWork_loop rest (processExecution_resume queueEntry a).2.
Proof.
  pose proof (processExecution_resume_frame queueEntry a) as [Hok _].
  open_assignedWork_resume. mrun.
  destruct (processExecution_resume queueEntry a) as [r a1].
  cbn in Hok. subst r. done.
Qed.

Lemma inflight_delete (ts : list Task) (i : nat) (t : Task) :
  ts !! i = Some t →
  match t with
  | ProcessExecutionAwait q _ => inflight ts ≡ₚ qe_id q :: inflight (delete i ts)
  | _ => inflight (delete i ts) = inflight ts
  end.
Proof.
  intros Hi.
  assert (Hsplit : inflight ts
                   = inflight (take i ts ++ t :: drop (S i) ts))
    by (by rewrite take_drop_middle).
  rewrite delete_take_drop.
  destruct t; rewrite Hsplit, !inflight_app; cbn; try done.
  symmetry. apply Permutation_middle.
Qed.

Lemma ledger_inv_quiet (m : M unit) (a : Agent) :
  ledger_quiet m → ledger_inv a →
  (∀ e, (m a).1 ≠ Throw e) ∧ ledger_inv (m a).2.
Proof.
  intros Hq Hinv. destruct (Hq a) as (Hok & Hled & new & nt & Htr & Hts & Hi & Hc & Hf).
  split; [done|].
  open_ledger_inv_all.
  rewrite Hled, Htr, Hts, invocations_app, committed_app, completed_ids_app,
    inflight_app, Hi, Hc, Hf, !app_nil_r.
  done.
Qed.

Lemma ledger_inv_loop (entries : list QueueEntry) (a : Agent) :
  ledger_inv a →
  (assignedWork_loop entries a).1 = Ok tt ∧
  ledger_inv (assignedWork_loop entries a).2.
Proof.
  intros (Hnd & Hled & Hacc & Hsub & Hlive).
  destruct (assignedWork_loop_spec entries a)
    as [[-> _]|(pre & q & rest & _ & _ & Hfresh & ->)]; [done|].
  split; [done|]. open_ledger_inv; unfold parked. cbn.
  rewrite invocations_app, committed_app, completed_ids_app, inflight_app,
    map_app. cbn. rewrite !app_nil_r.
  assert (Hni : qe_id q ∉ invoked_ids a) by (by rewrite <- Hled).
  assert (Hna : qe_id q ∉ accounted a) by (intros ?; apply Hfresh; auto).
  split_and!.
  - apply NoDup_app. split_and!; [done| |apply NoDup_singleton].
    intros id Hid ->%list_elem_of_singleton. done.
  - intros id. rewrite elem_of_union, elem_of_singleton, elem_of_app,
      list_elem_of_singleton, Hled. unfold invoked_ids. tauto.
  - rewrite app_assoc. apply NoDup_app. split_and!;
      [done| |apply NoDup_singleton].
    intros id Hid ->%list_elem_of_singleton. done.
  - intros id. rewrite app_assoc, elem_of_app, list_elem_of_singleton,
      elem_of_union, elem_of_singleton. intros [?|?]; auto.
  - intros Hok id. rewrite app_assoc, elem_of_app, list_elem_of_singleton,
      elem_of_union, elem_of_singleton. intros [?|?]; auto.
Qed.

Lemma ledger_inv_resume (queueEntry : QueueEntry) (rest : list QueueEntry)
    (i : nat) (a : Agent) :
  timers a !! i = Some (ProcessExecutionAwait queueEntry rest) →
  ledger_inv a →
  ledger_inv
    (processExecution_resume queueEntry
       (set_timers (delete i (timers a)) a)).2.
Proof.
  intros Hi (Hnd & Hled & Hacc & Hsub & Hlive).
  pose proof (inflight_delete _ _ _ Hi) as Hperm. cbn in Hperm.
  destruct (processExecution_resume_frame queueEntry
              (set_timers (delete i (timers a)) a))
    as (_ & Hsame & new & Htr & Hinv & _ & Hcases & Hgood).
  destruct Hsame as (_ & Hl & _ & _ & _ & _ & _ & _ & Hts & _).
  cbn in *. open_ledger_inv_all.
  rewrite Hl, Htr, Hts, invocations_app, committed_app, completed_ids_app,
    Hinv, app_nil_r.
  assert (Hold : completed_ids (committed (trace a)) ++ inflight (timers a)
                 ≡ₚ qe_id queueEntry ::
                    completed_ids (committed (trace a))
                    ++ inflight (delete i (timers a))).
  { rewrite Hperm. by rewrite Permutation_middle. }
  destruct Hcases as [Hc|Hc]; rewrite Hc.
  - rewrite app_nil_r. rewrite Hold in Hacc. apply NoDup_cons in Hacc as [Hn Hacc].
    split_and!; [done..| |].
    + intros id Hid. apply Hsub. rewrite Hold. by right.
    + intros Hok. specialize (Hgood Hok). congruence.
  - assert (Hnew : (completed_ids (committed (trace a)) ++ [qe_id queueEntry])
                   ++ inflight (delete i (timers a))
                   ≡ₚ completed_ids (committed (trace a))
                      ++ inflight (timers a)).
    { rewrite Hold. rewrite <- app_assoc. cbn. by rewrite Permutation_middle. }
    split_and!; [done..|by rewrite Hnew| |].
    + intros id. rewrite Hnew. apply Hsub.
    + intros Hok id. rewrite Hnew. by apply Hlive.
Qed.

Lemma turn_no_throw (m : M unit) (a : Agent) :
  (∀ e, (m a).1 ≠ Throw e) → turn w SESSION_ID m a = (m a).2.
Proof.
  intros Hok. unfold turn. destruct (m a) as [[x|e|] a']; try done.
  by destruct (Hok e).
Qed.

Lemma ledger_inv_turn_quiet (m : M unit) (a : Agent) :
  ledger_quiet m → ledger_inv a → ledger_inv (turn w SESSION_ID m a).
Proof.
  intros Hq Hinv. destruct (ledger_inv_quiet m a Hq Hinv) as [Hok Hinv'].
  by rewrite turn_no_throw.
Qed.

Lemma ledger_inv_delete_quiet (i : nat) (t : Task) (a : Agent) :
  timers a !! i = Some t →
  (∀ q rest, t ≠ ProcessExecutionAwait q rest) →
  ledger_inv a → ledger_inv (set_timers (delete i (timers a)) a).
Proof.
  intros Hi Ht Hinv. pose proof (inflight_delete _ _ _ Hi) as Hd.
  open_ledger_inv_all.
  cbn [set_timers timers trace processedExecutions].
  destruct t as [?|q rest|?| |?]; try (by rewrite Hd).
  by destruct (Ht q rest).
Qed.

Lemma run_task_quiet (t : Task) :
  (∀ entries, t ≠ AssignedWorkTimer entries) →
  (∀ q rest, t ≠ ProcessExecutionAwait q rest) →
  ledger_quiet (run_task t).
Proof.
  intros H1 H2. destruct t as [entries|q rest|entries| |reason]; cbn.
  - by destruct (H1 entries).
  - by destruct (H2 q rest).
  - apply pendingWork_timer_quiet.
  - apply Deno_exit_quiet.
  - apply rejection_event_quiet.
Qed.

Lemma ledger_inv_step (act : Action) (a : Agent) :
  ledger_inv a → ledger_inv (step act a).
Proof.
  intros Hinv. open_step. case_bool_decide; [|done].
  destruct act.
  - apply ledger_inv_turn_quiet, Hinv. apply assignedWork_onUpdate_quiet.
  - apply ledger_inv_turn_quiet, Hinv. apply pendingWork_onUpdate_quiet.
  - apply ledger_inv_turn_quiet, Hinv. apply activeKernels_onUpdate_quiet.
  - destruct (heartbeatInterval a); [|done].
    apply ledger_inv_turn_quiet, Hinv. apply heartbeat_quiet.
  - destruct (timers a !! i) as [t|] eqn:Hi; [|done].
    destruct t as [entries|q rest|entries| |reason].
    + eapply ledger_inv_delete_quiet in Hinv; [|done..].
      destruct (ledger_inv_loop entries _ Hinv) as [Hok Hinv'].
      rewrite turn_no_throw; [done|]. cbn. by rewrite Hok.
    + pose proof (ledger_inv_resume _ _ _ _ Hi Hinv) as Hinv1.
      destruct (ledger_inv_loop rest _ Hinv1) as [Hok Hinv'].
      rewrite turn_no_throw; cbn; rewrite assignedWork_resume_eq;
        [done|by rewrite Hok].
    + eapply ledger_inv_delete_quiet in Hinv; [|done..].
      apply ledger_inv_turn_quiet, Hinv. by apply run_task_quiet.
    + eapply ledger_inv_delete_quiet in Hinv; [|done..].
      apply ledger_inv_turn_quiet, Hinv. by apply run_task_quiet.
    + eapply ledger_inv_delete_quiet in Hinv; [|done..].
      apply ledger_inv_turn_quiet, Hinv. by apply run_task_quiet.
  - apply ledger_inv_turn_quiet, Hinv. apply shutdown_quiet.
  - apply ledger_inv_turn_quiet, Hinv. apply rejection_event_quiet.
  - apply ledger_inv_turn_quiet, Hinv. apply error_event_quiet.
  - done.
Qed.

Lemma ledger_inv_run (acts : list Action) (a : Agent) :
  ledger_inv a → ledger_inv (run acts a).
Proof.
  revert a. induction acts as [|act acts IH]; intros a Hinv; [done|].
  cbn. apply IH. by apply ledger_inv_step.
Qed.

Lemma ledger_inv_started (a : Agent) :
  invocations (trace a) = [] →
  completed_ids (committed (trace a)) = [] →
  inflight (timers a) = [] →
  ledger_inv (started a).
Proof.
  intros Hi Hc Hf. open_ledger_inv.
  change (trace (started a)) with (trace a).
  change (timers (started a)) with (timers a).
  change (processedExecutions (started a)) with (∅ : gset string).
  rewrite Hi, Hc, Hf. cbn. split_and!; try apply NoDup_nil_2; set_solver.
Qed.

Lemma NoDup_count_le (id : string) (l : list string) :
  NoDup l → (length (filter (λ x, x = id) l) ≤ 1)%nat.
Proof.
  induction 1 as [|x l Hx Hnd IH]; [cbn; lia|].
  rewrite filter_cons. case_decide as Heq; [|done]. subst x. cbn.
  assert (Hnil : filter (λ x, x = id) l = []).
  { destruct (filter (λ x, x = id) l) as [|y l'] eqn:Hf; [done|].
    assert (Hy : y ∈ filter (λ x, x = id) l) by (rewrite Hf; left).
    by apply list_elem_of_filter in Hy as [-> ?]. }
  rewrite Hnil. cbn. lia.
Qed.

Lemma elem_of_count_ge (id : string) (l : list string) :
  id ∈ l → (1 ≤ length (filter (λ x, x = id) l))%nat.
Proof.
  intros Hin. assert (Hf : id ∈ filter (λ x, x = id) l)
    by (by apply list_elem_of_filter).
  destruct (filter _ l); [inversion Hf|cbn; lia].
Qed.

Lemma ledger_inv_reachable (a0 : Agent) (acts : list Action) :
  pristine a0 → ledger_inv (run acts (started a0)).
Proof.
  intros (Hi & Hc & _ & Ht & _). apply ledger_inv_run, ledger_inv_started;
    [done..|by rewrite Ht].
Qed.

(** C1.  Whatever the store delivers and however the event loop
    interleaves the callbacks, [processExecution] is entered at most once
    for each queue-entry identifier, and the ledger holds exactly the
    identifiers it was entered for.  This is so because the loop skips an
    entry whose identifier is in the ledger, and for one that is not it
    records the identifier in the same synchronous block that calls
    [processExecution], which then only announces itself and parks at its
    [await]: none of its commits has been attempted at that point. *)
Theorem at_most_one_invocation (a0 : Agent) (acts : list Action) :
  pristine a0 →
  let a := run acts (started a0) in
  (∀ id, (invocations_of id a ≤ 1)%nat) ∧
  (∀ id, id ∈ processedExecutions a ↔ (invocations_of id a = 1)%nat) ∧
  ∀ (queueEntry : QueueEntry) (rest : list QueueEntry) (b : Agent),
    (qe_id queueEntry ∈ processedExecutions b →
     assignedWork_loop (queueEntry :: rest) b = assignedWork_loop rest b) ∧
    (qe_id queueEntry ∉ processedExecutions b →
     assignedWork_loop (queueEntry :: rest) b
     = (Ok tt, parked queueEntry rest b) ∧
     qe_id queueEntry ∈ processedExecutions (parked queueEntry rest b) ∧
     attempted (trace (parked queueEntry rest b)) = attempted (trace b)).
Proof.
  intros Hp. cbn zeta.
  destruct (ledger_inv_reachable a0 acts Hp) as (Hnd & Hled & _).
  split_and!.
  - intros id. by apply NoDup_count_le.
  - intros id. rewrite Hled. unfold invocations_of. split.
    + intros Hin. apply elem_of_count_ge in Hin.
      pose proof (NoDup_count_le id _ Hnd). lia.
    + intros Hone. destruct (filter _ _) as [|x l] eqn:Hf; [done|].
      assert (Hx : x ∈ filter (λ x, x = id) (invoked_ids (run acts (started a0))))
        by (rewrite Hf; left).
      by apply list_elem_of_filter in Hx as [-> ?].
  - intros q rest b. split.
    + intros Hin. cbn [assignedWork_loop]. mrun.
      by rewrite bool_decide_eq_true_2.
    + intros Hnin. split_and!.
      * cbn [assignedWork_loop]. mrun.
        rewrite bool_decide_eq_false_2 by done.
        unfold processExecution_call, parked. mrun.
        by rewrite <- app_assoc.
      * cbn. apply elem_of_union. left. by apply elem_of_singleton.
      * cbn. rewrite attempted_app. cbn. by rewrite app_nil_r.
Qed.

(** ** Running the engine to quiescence *)

Lemma run_app (acts1 acts2 : list Action) (a : Agent) :
  run (acts1 ++ acts2) a = run acts2 (run acts1 a).
Proof. apply foldl_app. Qed.

Lemma run_cons (act : Action) (acts : list Action) (a : Agent) :
  run (act :: acts) a = run acts (step act a).
Proof. done. Qed.

Lemma run_idle (n : nat) (a : Agent) :
  timers a = [] → run (repeat (TimerFires 0) n) a = a.
Proof.
  intros Ht. induction n as [|n IH]; [done|].
  cbn. open_step. rewrite Ht. cbn.
  case_bool_decide; apply IH.
Qed.

(** Once the timer callback of a notification has started its loop, one
    timer firing per entry is enough to bring the engine to rest, with
    every entry of the notification in the ledger. *)
Lemma drain (n : nat) (entries : list QueueEntry) (a : Agent) :
  timers a = [] → exited a = None → (length entries ≤ n)%nat →
  let a' := run (repeat (TimerFires 0) n) (assignedWork_loop entries a).2 in
  timers a' = [] ∧ exited a' = None ∧
  (∀ id, id ∈ processedExecutions a → id ∈ processedExecutions a') ∧
  (∀ q, q ∈ entries → qe_id q ∈ processedExecutions a').
Proof.
  revert entries a. induction n as [|n IH]; intros entries a Ht Hex Hlen.
  - destruct entries; [|cbn in Hlen; lia]. cbn. split_and!; try done.
    intros q Hq. inversion Hq.
  - cbn zeta.
    destruct (assignedWork_loop_spec entries a)
      as [[-> Hall]|(pre & q & rest & -> & Hpre & Hfresh & ->)].
    + cbn [snd]. rewrite run_idle by done. done.
    + cbn [snd repeat]. open_run. cbn [foldl].
      fold (run (repeat (TimerFires 0) n)).
      set (a2 := set_timers [] (parked q rest a)).
      assert (Hstep : step (TimerFires 0) (parked q rest a)
                      = (assignedWork_loop rest
                           (processExecution_resume q a2).2).2).
      { open_step. cbn [exited parked set_timers set_trace
          set_processedExecutions timers]. rewrite Ht, Hex. cbn.
        fold a2. rewrite turn_no_throw; rewrite assignedWork_resume_eq.
        - done.
        - destruct (assignedWork_loop_spec rest
                      (processExecution_resume q a2).2)
            as [[-> _]|(? & ? & ? & _ & _ & _ & ->)]; done. }
      rewrite Hstep.
      destruct (processExecution_resume_frame q a2)
        as (_ & (_ & Hl & _ & _ & _ & _ & _ & _ & Hts & Hexi) & _).
      rewrite length_app in Hlen. cbn in Hlen.
      destruct (IH rest (processExecution_resume q a2).2)
        as (Ht' & Hex' & Hmono & Hrest); [done|by rewrite Hexi|lia|].
      assert (Hq : ∀ id, id ∈ ({[qe_id q]} ∪ processedExecutions a : gset string) →
                   id ∈ processedExecutions
                          (run (repeat (TimerFires 0) n)
                             (assignedWork_loop rest
                                (processExecution_resume q a2).2).2)).
      { intros id Hid. apply Hmono. by rewrite Hl. }
      split_and!; [done..| |].
      * intros id Hid. apply Hq. apply elem_of_union. by right.
      * intros p Hp. apply elem_of_app in Hp as [Hp|Hp].
        -- apply Hq. apply elem_of_union. right. by apply Hpre.
        -- apply elem_of_cons in Hp as [->|Hp]; [|by apply Hrest].
           apply Hq. apply elem_of_union. left. by apply elem_of_singleton.
Qed.

Lemma deliver_and_drain (entries : list QueueEntry) (a : Agent) :
  timers a = [] → isShuttingDown a = false → exited a = None →
  let a' := run (AssignedWorkUpdate entries
                   :: repeat (TimerFires 0) (S (length entries))) a in
  timers a' = [] ∧
  ∀ q, q ∈ entries → qe_id q ∈ processedExecutions a'.
Proof.
  intros Ht Hs Hex. cbn zeta. cbn [repeat]. open_run. cbn [foldl].
  fold (run (repeat (TimerFires 0) (length entries))).
  set (b := set_timers [] (set_timers [AssignedWorkTimer entries] a)).
  assert (Hstep : step (TimerFires 0) (step (AssignedWorkUpdate entries) a)
                  = (assignedWork_loop entries b).2).
  { assert (H1 : step (AssignedWorkUpdate entries) a
                 = set_timers [AssignedWorkTimer entries] a).
    { open_step. rewrite Hex. cbn. unfold turn, assignedWork_onUpdate.
      mrun. by rewrite Hs, Ht. }
    rewrite H1. open_step. cbn. rewrite Hex. cbn. fold b.
    rewrite turn_no_throw; [done|].
    destruct (assignedWork_loop_spec entries b)
      as [[-> _]|(? & ? & ? & _ & _ & _ & ->)]; done. }
  rewrite Hstep.
  destruct (drain (length entries) entries b) as (Ht' & _ & _ & Hall);
    [done|done|lia|]. done.
Qed.

(** ** Terminal events *)

(** C2, as the code has it.  In every reachable state the log holds at most
    one completion event per queue identifier, and only for identifiers the
    engine took up.  When the store takes every failure-status completion,
    each identifier the engine took up has exactly one completion event as
    soon as no execution is parked any more; and a notification delivered
    to an idle, running agent reaches that state after one timer firing for
    the callback and one per entry. *)
Theorem completion_events (a0 : Agent) (acts : list Action) :
  pristine a0 →
  let a := run acts (started a0) in
  (∀ id, (completions_of id a ≤ 1)%nat) ∧
  (∀ id, (1 ≤ completions_of id a)%nat → id ∈ processedExecutions a) ∧
  (failure_completions_accepted w →
   (inflight (timers a) = [] →
    ∀ id, id ∈ processedExecutions a → completions_of id a = 1%nat) ∧
   (∀ entries,
      timers a = [] → isShuttingDown a = false → exited a = None →
      let a' := run (AssignedWorkUpdate entries
                       :: repeat (TimerFires 0) (S (length entries))) a in
      timers a' = [] ∧
      ∀ q, q ∈ entries → completions_of (qe_id q) a' = 1%nat)).
Proof.
  intros Hp. cbn zeta.
  assert (Hone : ∀ acts',
            failure_completions_accepted w →
            inflight (timers (run acts' (started a0))) = [] →
            ∀ id, id ∈ processedExecutions (run acts' (started a0)) →
                  completions_of id (run acts' (started a0)) = 1%nat).
  { intros acts' Hok Hidle id Hid.
    destruct (ledger_inv_reachable a0 acts' Hp) as (_ & _ & Hnd & _ & Hlive).
    unfold accounted in *. rewrite Hidle, app_nil_r in *.
    pose proof (NoDup_count_le id _ Hnd).
    pose proof (elem_of_count_ge id _ (Hlive Hok id Hid)).
    unfold completions_of. lia. }
  destruct (ledger_inv_reachable a0 acts Hp) as (_ & _ & Hnd & Hsub & _).
  split_and!.
  - intros id. apply NoDup_count_le. by apply NoDup_app in Hnd as [? _].
  - intros id Hid. apply Hsub. apply elem_of_app. left.
    unfold completions_of in Hid.
    destruct (filter _ _) as [|x l] eqn:Hf; [cbn in Hid; lia|].
    assert (Hx : x ∈ filter (λ x, x = id)
                   (completed_ids (committed (trace (run acts (started a0))))))
      by (rewrite Hf; left).
    by apply list_elem_of_filter in Hx as [-> ?].
  - intros Hok. split; [by apply Hone|].
    intros entries Ht Hs Hex.
    destruct (deliver_and_drain entries _ Ht Hs Hex) as [Ht' Hall].
    cbn zeta. split; [done|]. intros q Hq.
    rewrite <- run_app in *. apply Hone; [done| |by apply Hall].
    by rewrite Ht'.
Qed.

(** ** The lifecycle invariant *)

Lemma assignedWork_onUpdate_lifecycle entries :
  lifecycle_quiet (assignedWork_onUpdate entries).
Proof.
  intros a. unfold assignedWork_onUpdate. mrun.
  destruct (isShuttingDown a) eqn:Hs; mrun; view_done.
Qed.

Lemma pendingWork_onUpdate_lifecycle entries :
  lifecycle_quiet (pendingWork_onUpdate entries).
Proof.
  intros a. unfold pendingWork_onUpdate. mrun.
  destruct (isShuttingDown a) eqn:Hs; mrun; [view_done|].
  case_bool_decide; mrun; view_done.
Qed.

Lemma activeKernels_onUpdate_lifecycle entries :
  lifecycle_quiet (activeKernels_onUpdate entries).
Proof.
  intros a. unfold activeKernels_onUpdate. mrun.
  destruct (isShuttingDown a) eqn:Hs; mrun; view_done.
Qed.

Lemma heartbeat_lifecycle : lifecycle_quiet heartbeat.
Proof.
  intros a. open_heartbeat. mrun.
  destruct (isShuttingDown a) eqn:Hs; mrun; [view_done|].
  oracle_cases; view_done.
Qed.

Lemma pendingWork_timer_lifecycle entries :
  lifecycle_quiet (pendingWork_timer entries).
Proof.
  intros a. open_pendingWork_timer. mrun.
  destruct (List.find _ _); [|view_done].
  destruct entries as [|q rest]; cbn; [view_done|].
  case_bool_decide; mrun; [|view_done].
  oracle_cases; view_done.
Qed.

Lemma assignedWork_loop_lifecycle entries :
  lifecycle_quiet (assignedWork_loop entries).
Proof.
  intros a.
  destruct (assignedWork_loop_spec entries a)
    as [[-> _]|(pre & q & rest & _ & _ & _ & ->)]; [done|].
  unfold parked. view_done.
Qed.

Lemma processExecution_resume_lifecycle queueEntry :
  lifecycle_quiet (processExecution_resume queueEntry).
Proof.
  intros a.
  destruct (processExecution_resume_frame queueEntry a)
    as (Hok & (H1 & _ & H3 & H4 & H5 & H6 & _ & _ & H9 & H10)
        & new & Htr & _ & Htd & _).
  split; [by rewrite Hok|].
  unfold lifecycle_view.
  by rewrite H1, H3, H4, H5, H6, H9, H10, Htr, teardown_app, Htd, app_nil_r.
Qed.

Lemma assignedWork_resume_lifecycle queueEntry rest :
  lifecycle_quiet (assignedWork_resume queueEntry rest).
Proof.
  intros a. rewrite assignedWork_resume_eq.
  destruct (processExecution_resume_lifecycle queueEntry a) as [_ Hv1].
  destruct (assignedWork_loop_lifecycle rest
              (processExecution_resume queueEntry a).2) as [Hok Hv2].
  split; [done|]. by rewrite Hv2.
Qed.

Lemma shutdown_tasks_delete (ts : list Task) (i : nat) (t : Task) :
  ts !! i = Some t →
  if is_shutdown_task t
  then shutdown_tasks ts ≡ₚ t :: shutdown_tasks (delete i ts)
  else shutdown_tasks (delete i ts) = shutdown_tasks ts.
Proof.
  intros Hi.
  assert (Hsplit : shutdown_tasks ts
                   = shutdown_tasks (take i ts ++ t :: drop (S i) ts))
    by (by rewrite take_drop_middle).
  rewrite delete_take_drop, Hsplit, !shutdown_tasks_app.
  change (shutdown_tasks (t :: drop (S i) ts))
    with (filter (λ t, is_shutdown_task t) (t :: drop (S i) ts)).
  rewrite filter_cons.
  destruct (is_shutdown_task t) eqn:Ht; cbn.
  - symmetry. apply Permutation_middle.
  - done.
Qed.

(** The invariant only reads the lifecycle view. *)
Lemma lifecycle_inv_view (a a' : Agent) :
  lifecycle_view a' = lifecycle_view a →
  lifecycle_inv w SESSION_ID a → lifecycle_inv w SESSION_ID a'.
Proof.
  unfold lifecycle_view, lifecycle_inv. intros Hv.
  injection Hv as -> -> -> -> -> -> -> ->. done.
Qed.

Lemma lifecycle_inv_turn_quiet (m : M unit) (a : Agent) :
  lifecycle_quiet m → lifecycle_inv w SESSION_ID a →
  lifecycle_inv w SESSION_ID (turn w SESSION_ID m a).
Proof.
  intros Hq Hinv. destruct (Hq a) as [Hok Hv].
  rewrite turn_no_throw by done. by eapply lifecycle_inv_view.
Qed.

Lemma shutdown_sync_again (a : Agent) :
  isShuttingDown a = true → shutdown_sync w SESSION_ID a = (Ok None, a).
Proof. intros Hs. unfold shutdown_sync. mrun. by rewrite Hs. Qed.

Lemma shutdown_again (a : Agent) :
  isShuttingDown a = true → shutdown a = (Ok tt, a).
Proof. intros Hs. open_shutdown. mrun. by rewrite Hs. Qed.

Lemma lifecycle_inv_console (a : Agent) level text arg :
  lifecycle_inv w SESSION_ID a →
  lifecycle_inv w SESSION_ID
    (set_trace (trace a ++ [Console level text arg]) a).
Proof.
  apply lifecycle_inv_view. unfold lifecycle_view. cbn.
  by rewrite teardown_app, app_nil_r.
Qed.

(** The first call of [shutdown] on a running agent, up to its [await]. *)
Lemma shutdown_sync_first (a : Agent) :
  isShuttingDown a = false →
  assignedWorkSubscription a = Some AssignedWork →
  pendingWorkSubscription a = Some PendingWork →
  activeKernelsSubscription a = Some ActiveKernels →
  ∃ r,
    (shutdown_sync w SESSION_ID a).1
    = Ok (Some match store_shutdown w with
               | None => AwaitUndefined
               | Some None => AwaitPromise ShutdownAwait
               | Some (Some e) => AwaitPromise (ShutdownRejected e)
               end) ∧
    r = commit_throws w
          (trace a ++ [Console LLog "🛑 Shutting down..." None; ClearInterval;
                       Unsubscribe AssignedWork; Unsubscribe PendingWork;
                       Unsubscribe ActiveKernels])
          (kernelSessionTerminated SESSION_ID "shutdown") ∧
    (shutdown_sync w SESSION_ID a).2
    = set_trace
        (trace a
         ++ [Console LLog "🛑 Shutting down..." None; ClearInterval;
             Unsubscribe AssignedWork; Unsubscribe PendingWork;
             Unsubscribe ActiveKernels;
             Commit (kernelSessionTerminated SESSION_ID "shutdown") r]
         ++ match r with
            | Some e =>
                [Console LWarn "⚠️ Failed to mark session as terminated:"
                   (Some e)]
            | None => []
            end
         ++ closing w)
        (set_subscription ActiveKernels None
           (set_subscription PendingWork None
              (set_subscription AssignedWork None
                 (set_heartbeatInterval false
                    (set_isShuttingDown true a))))).
Proof.
  intros Hs HA HP HK. unfold shutdown_sync, unsubscribe, closing. mrun.
  rewrite Hs. mrun. rewrite HA. mrun. rewrite HP. mrun. rewrite HK. mrun.
  rewrite <- !app_assoc. cbn.
  destruct (commit_throws w _ _) as [e|] eqn:Hr; mrun.
  all: destruct (store_shutdown w) as [[e'|]|]; mrun.
  all: eexists; split_and!; try reflexivity.
  all: rewrite <- ?app_assoc; cbn; rewrite ?app_nil_r; reflexivity.
Qed.

(** The first call of [shutdown] on a running agent, spelled out. *)
Lemma shutdown_first (a : Agent) :
  isShuttingDown a = false →
  assignedWorkSubscription a = Some AssignedWork →
  pendingWorkSubscription a = Some PendingWork →
  activeKernelsSubscription a = Some ActiveKernels →
  ∃ r rest nt c,
    (shutdown a).1 = c ∧ (∀ e, c ≠ Throw e) ∧
    isShuttingDown (shutdown a).2 = true ∧
    heartbeatInterval (shutdown a).2 = false ∧
    assignedWorkSubscription (shutdown a).2 = None ∧
    pendingWorkSubscription (shutdown a).2 = None ∧
    activeKernelsSubscription (shutdown a).2 = None ∧
    r = commit_throws w
          (trace a ++ [Console LLog "🛑 Shutting down..." None; ClearInterval;
                       Unsubscribe AssignedWork; Unsubscribe PendingWork;
                       Unsubscribe ActiveKernels])
          (kernelSessionTerminated SESSION_ID "shutdown") ∧
    trace (shutdown a).2
    = trace a
      ++ [Console LLog "🛑 Shutting down..." None; ClearInterval;
          Unsubscribe AssignedWork; Unsubscribe PendingWork;
          Unsubscribe ActiveKernels;
          Commit (kernelSessionTerminated SESSION_ID "shutdown") r]
      ++ match r with
         | Some e =>
             [Console LWarn "⚠️ Failed to mark session as terminated:" (Some e)]
         | None => []
         end
      ++ rest ∧
    timers (shutdown a).2 = timers a ++ nt ∧
    match store_shutdown w with
    | None => rest = [Exit 0] ∧ nt = [] ∧ c = Halt ∧
              exited (shutdown a).2 = Some 0
    | Some None => rest = [StoreShutdown] ∧ nt = [ShutdownAwait] ∧ c = Ok tt ∧
                   exited (shutdown a).2 = exited a
    | Some (Some e) => rest = [StoreShutdown] ∧ nt = [ShutdownRejected e] ∧
                       c = Ok tt ∧ exited (shutdown a).2 = exited a
    end.
Proof.
  intros Hs HA HP HK. open_shutdown. mrun.
  rewrite Hs. mrun. rewrite HA. mrun. rewrite HP. mrun. rewrite HK. mrun.
  rewrite <- !app_assoc. cbn.
  destruct (commit_throws w _ _) as [e|] eqn:Hr; mrun.
  all: destruct (store_shutdown w) as [[e'|]|]; mrun.
  all: eexists _, _, _, _; split_and!; try reflexivity; try done.
  all: rewrite <- ?app_assoc; cbn; try reflexivity.
  all: symmetry; apply app_nil_r.
Qed.

(** An [error] or [unhandledrejection] event, from the listener to the end
    of the process. *)
Lemma error_event_eq (error : exn) (a : Agent) :
  error_event w SESSION_ID error a
  = (Halt,
     set_exited (Some 1)
       (set_trace
          (trace (shutdown_sync w SESSION_ID
                    (set_trace (trace a ++
                       [Console LError "💥 Uncaught error:" (Some error)])
                       a)).2
           ++ [Console LError "error: Uncaught" (Some error); Exit 1])
          (shutdown_sync w SESSION_ID
             (set_trace (trace a ++
                [Console LError "💥 Uncaught error:" (Some error)]) a)).2)).
Proof.
  open_events. mrun.
  destruct (shutdown_sync w SESSION_ID _) as [r b] eqn:Hsync.
  assert (Hok : ∃ x, r = Ok x).
  { pose proof (f_equal fst Hsync) as Hr. cbn in Hr. subst r. clear Hsync.
    shutdown_cases a; eauto. }
  destruct Hok as [x ->]. cbn. by rewrite <- app_assoc.
Qed.

Lemma rejection_event_eq (reason : exn) (a : Agent) :
  rejection_event w SESSION_ID reason a
  = (Halt,
     set_exited (Some 1)
       (set_trace
          (trace (shutdown_sync w SESSION_ID
                    (set_trace (trace a ++
                       [Console LError "💥 Unhandled rejection:" (Some reason)])
                       a)).2
           ++ [Console LError "error: Uncaught" (Some reason); Exit 1])
          (shutdown_sync w SESSION_ID
             (set_trace (trace a ++
                [Console LError "💥 Unhandled rejection:" (Some reason)])
                a)).2)).
Proof.
  open_events. mrun.
  destruct (shutdown_sync w SESSION_ID _) as [r b] eqn:Hsync.
  assert (Hok : ∃ x, r = Ok x).
  { pose proof (f_equal fst Hsync) as Hr. cbn in Hr. subst r. clear Hsync.
    shutdown_cases a; eauto. }
  destruct Hok as [x ->]. cbn. by rewrite <- app_assoc.
Qed.


Lemma teardown_of_sync (a : Agent) (r : option exn) :
  teardown (trace a) = [] →
  teardown
    (trace a
     ++ [Console LLog "🛑 Shutting down..." None; ClearInterval;
         Unsubscribe AssignedWork; Unsubscribe PendingWork;
         Unsubscribe ActiveKernels;
         Commit (kernelSessionTerminated SESSION_ID "shutdown") r]
     ++ match r with
        | Some e =>
            [Console LWarn "⚠️ Failed to mark session as terminated:" (Some e)]
        | None => []
        end
     ++ closing w)
  = teardown_steps SESSION_ID r ++ closing w.
Proof.
  intros Htd. rewrite !teardown_app, Htd. cbn.
  assert (Hwarn : teardown
            match r with
            | Some e =>
                [Console LWarn "⚠️ Failed to mark session as terminated:"
                   (Some e)]
            | None => []
            end = []) by (by destruct r).
  rewrite Hwarn. unfold teardown_steps, closing. cbn.
  by destruct (store_shutdown w).
Qed.

Lemma lifecycle_inv_shutdown (a : Agent) :
  lifecycle_inv w SESSION_ID a →
  (∀ e, (shutdown a).1 ≠ Throw e) ∧ lifecycle_inv w SESSION_ID (shutdown a).2.
Proof.
  intros Hinv. destruct (isShuttingDown a) eqn:Hs.
  - by rewrite shutdown_again.
  - unfold lifecycle_inv in Hinv. rewrite Hs in Hinv.
    destruct Hinv as (Htd & HA & HP & HK & Hhb & Hex & Htasks).
    destruct (shutdown_first a Hs HA HP HK)
      as (r & rest & nt & c & Hc & Hok & H1 & H2 & H3 & H4 & H5 & _ & Htr
          & Hts & Hcase).
    split; [by rewrite Hc|].
    unfold lifecycle_inv. rewrite H1, H2, H3, H4, H5, Htr, Hts.
    rewrite !teardown_app, shutdown_tasks_app, Htd, Htasks.
    assert (Hwarn : teardown
              match r with
              | Some e =>
                  [Console LWarn "⚠️ Failed to mark session as terminated:"
                     (Some e)]
              | None => []
              end = []) by (by destruct r).
    rewrite Hwarn. split_and!; try done. exists r. unfold closing.
    destruct (store_shutdown w) as [[e'|]|].
    + destruct Hcase as (-> & -> & _ & ->). left. done.
    + destruct Hcase as (-> & -> & _ & ->). left. done.
    + destruct Hcase as (-> & -> & _ & ->). right. left. done.
Qed.

(** The process after an unprevented event has been reported. *)
Lemma lifecycle_inv_killed (b : Agent) (r : option exn) (e : exn) :
  isShuttingDown b = true →
  heartbeatInterval b = false →
  assignedWorkSubscription b = None →
  pendingWorkSubscription b = None →
  activeKernelsSubscription b = None →
  teardown (trace b) = teardown_steps SESSION_ID r ++ closing w →
  lifecycle_inv w SESSION_ID
    (set_exited (Some 1)
       (set_trace
          (trace b ++ [Console LError "error: Uncaught" (Some e); Exit 1]) b)).
Proof.
  intros Hs Hhb HA HP HK Htd. unfold lifecycle_inv. fields.
  rewrite Hs, Hhb, HA, HP, HK, teardown_app, Htd. split_and!; try done.
  exists r. right. right. by rewrite <- app_assoc.
Qed.

Lemma lifecycle_inv_after_listener (a : Agent) text (e : exn) :
  exited a = None →
  lifecycle_inv w SESSION_ID a →
  let b := (shutdown_sync w SESSION_ID
              (set_trace (trace a ++ [Console LError text (Some e)]) a)).2 in
  lifecycle_inv w SESSION_ID
    (set_exited (Some 1)
       (set_trace
          (trace b ++ [Console LError "error: Uncaught" (Some e); Exit 1]) b)).
Proof.
  intros Hex Hinv. cbn zeta.
  set (a1 := set_trace (trace a ++ [Console LError text (Some e)]) a).
  assert (Hinv1 : lifecycle_inv w SESSION_ID a1)
    by (by apply lifecycle_inv_console).
  unfold lifecycle_inv in Hinv1.
  destruct (isShuttingDown a1) eqn:Hs.
  - rewrite shutdown_sync_again by done. cbn [snd].
    destruct Hinv1 as (Hhb & HA & HP & HK & r & Hcase).
    destruct Hcase as [(Htd & _)|[(_ & Hex' & _)|(_ & Hex')]];
      [|cbn in Hex'; congruence..].
    by apply (lifecycle_inv_killed a1 r).
  - destruct Hinv1 as (Htd & HA & HP & HK & _).
    destruct (shutdown_sync_first a1 Hs HA HP HK) as (r & _ & _ & ->).
    apply (lifecycle_inv_killed _ r); try done.
    fields. by apply teardown_of_sync.
Qed.

Lemma lifecycle_inv_error_event (error : exn) (a : Agent) :
  exited a = None → lifecycle_inv w SESSION_ID a →
  lifecycle_inv w SESSION_ID (turn w SESSION_ID (error_event w SESSION_ID error) a).
Proof.
  intros Hex Hinv. unfold turn. rewrite error_event_eq.
  by apply lifecycle_inv_after_listener.
Qed.

Lemma lifecycle_inv_rejection_event (reason : exn) (a : Agent) :
  exited a = None → lifecycle_inv w SESSION_ID a →
  lifecycle_inv w SESSION_ID
    (turn w SESSION_ID (rejection_event w SESSION_ID reason) a).
Proof.
  intros Hex Hinv. unfold turn. rewrite rejection_event_eq.
  by apply lifecycle_inv_after_listener.
Qed.

Lemma lifecycle_inv_delete (i : nat) (t : Task) (a : Agent) :
  timers a !! i = Some t → is_shutdown_task t = false →
  lifecycle_inv w SESSION_ID a →
  lifecycle_inv w SESSION_ID (set_timers (delete i (timers a)) a).
Proof.
  intros Hi Ht. apply lifecycle_inv_view.
  pose proof (shutdown_tasks_delete _ _ _ Hi) as Hd. rewrite Ht in Hd.
  unfold lifecycle_view. fields. by rewrite Hd.
Qed.

(** When a shutdown continuation is taken off the timer queue of a live
    process, the process was shutting down, that continuation was the only
    one, and it is the one [store.shutdown] called for. *)
Lemma lifecycle_inv_shutdown_task (i : nat) (t : Task) (a : Agent) :
  timers a !! i = Some t → is_shutdown_task t = true → exited a = None →
  lifecycle_inv w SESSION_ID a →
  isShuttingDown a = true ∧
  heartbeatInterval a = false ∧
  assignedWorkSubscription a = None ∧
  pendingWorkSubscription a = None ∧
  activeKernelsSubscription a = None ∧
  shutdown_tasks (delete i (timers a)) = [] ∧
  ∃ r, teardown (trace a) = teardown_steps SESSION_ID r ++ [StoreShutdown] ∧
    match t with
    | ShutdownAwait => store_shutdown w = Some None
    | ShutdownRejected e => store_shutdown w = Some (Some e)
    | _ => False
    end.
Proof.
  intros Hi Ht Hex Hinv.
  pose proof (shutdown_tasks_delete _ _ _ Hi) as Hd. rewrite Ht in Hd.
  unfold lifecycle_inv, closing in Hinv. destruct (isShuttingDown a).
  - destruct Hinv as (Hhb & HA & HP & HK & r & Hcase).
    assert (Hone : ∀ x, shutdown_tasks (timers a) = [x] →
                        t = x ∧ shutdown_tasks (delete i (timers a)) = []).
    { intros x Hx. rewrite Hx in Hd. symmetry in Hd.
      apply Permutation_singleton_r in Hd. by injection Hd as -> ->. }
    destruct Hcase as [(Htd & _ & Hx)|[(_ & Hex' & _)|(_ & Hex')]];
      [|congruence..].
    destruct (store_shutdown w) as [[e|]|]; [| |done].
    + destruct (Hone _ Hx) as [-> Hnil]. split_and!; try done. by exists r.
    + destruct (Hone _ Hx) as [-> Hnil]. split_and!; try done. by exists r.
  - destruct Hinv as (_ & _ & _ & _ & _ & _ & Hx).
    rewrite Hx in Hd. by apply Permutation_nil_cons in Hd.
Qed.

Lemma lifecycle_inv_step (act : Action) (a : Agent) :
  lifecycle_inv w SESSION_ID a → lifecycle_inv w SESSION_ID (step act a).
Proof.
  intros Hinv. open_step. case_bool_decide as Hex; [|done].
  destruct act.
  - by apply lifecycle_inv_turn_quiet, Hinv; apply assignedWork_onUpdate_lifecycle.
  - by apply lifecycle_inv_turn_quiet, Hinv; apply pendingWork_onUpdate_lifecycle.
  - by apply lifecycle_inv_turn_quiet, Hinv; apply activeKernels_onUpdate_lifecycle.
  - destruct (heartbeatInterval a); [|done].
    by apply lifecycle_inv_turn_quiet, Hinv; apply heartbeat_lifecycle.
  - destruct (timers a !! i) as [t|] eqn:Hi; [|done].
    destruct t as [entries|q rest|entries| |reason].
    + eapply lifecycle_inv_delete in Hinv; [|done..].
      apply lifecycle_inv_turn_quiet, Hinv. apply assignedWork_loop_lifecycle.
    + eapply lifecycle_inv_delete in Hinv; [|done..].
      apply lifecycle_inv_turn_quiet, Hinv. apply assignedWork_resume_lifecycle.
    + eapply lifecycle_inv_delete in Hinv; [|done..].
      apply lifecycle_inv_turn_quiet, Hinv. apply pendingWork_timer_lifecycle.
    + destruct (lifecycle_inv_shutdown_task _ _ _ Hi eq_refl Hex Hinv)
        as (Hs & Hhb & HA & HP & HK & Hnil & r & Htd & Hsd).
      unfold turn. open_exit_task. unfold lifecycle_inv, closing.
      fields.
      rewrite Hs, Hhb, HA, HP, HK, Hsd, Hnil, teardown_app, Htd.
      split_and!; try done. exists r. right. left.
      rewrite <- app_assoc. done.
    + destruct (lifecycle_inv_shutdown_task _ _ _ Hi eq_refl Hex Hinv)
        as (Hs & Hhb & HA & HP & HK & Hnil & r & Htd & Hsd).
      open_run_task. unfold turn. rewrite rejection_event_eq.
      rewrite shutdown_sync_again by done. cbn [snd].
      apply (lifecycle_inv_killed _ r); try done.
      fields. rewrite teardown_app, Htd, app_nil_r. unfold closing.
      by rewrite Hsd.
  - destruct (lifecycle_inv_shutdown a Hinv) as [Hok Hinv'].
    by rewrite turn_no_throw.
  - by apply lifecycle_inv_rejection_event.
  - by apply lifecycle_inv_error_event.
  - revert Hinv. by apply lifecycle_inv_view.
Qed.

Lemma lifecycle_inv_run (acts : list Action) (a : Agent) :
  lifecycle_inv w SESSION_ID a → lifecycle_inv w SESSION_ID (run acts a).
Proof.
  revert a. induction acts as [|act acts IH]; intros a Hinv; [done|].
  cbn. apply IH. by apply lifecycle_inv_step.
Qed.

Lemma lifecycle_inv_reachable (a0 : Agent) (acts : list Action) :
  pristine a0 → lifecycle_inv w SESSION_ID (run acts (started a0)).
Proof.
  intros (_ & _ & Htd & Ht & Hex). apply lifecycle_inv_run.
  unfold lifecycle_inv, started. fields. by rewrite Htd, Ht, Hex.
Qed.

(** ** Shutdown *)

Lemma teardown_work_app tr1 tr2 :
  teardown_work (tr1 ++ tr2) = teardown_work tr1 ++ teardown_work tr2.
Proof. apply filter_app. Qed.

Lemma teardown_once (a : Agent) :
  lifecycle_inv w SESSION_ID a → NoDup (teardown (trace a)).
Proof.
  unfold lifecycle_inv, teardown_steps, closing. intros Hinv.
  destruct (isShuttingDown a).
  - destruct Hinv as (_ & _ & _ & _ & r & Hcase).
    destruct Hcase as [(-> & _)|[(-> & _)|(-> & _)]];
      destruct (store_shutdown w); cbn; nodup_distinct.
  - destruct Hinv as (-> & _). apply NoDup_nil_2.
Qed.

(** A trigger that arrives when the flag is already set repeats no step of
    [shutdown]: a signal changes nothing at all, and an error or rejection
    event only adds to the console before it ends the process. *)
Lemma trigger_again (act : Action) (a : Agent) :
  is_trigger act = true → isShuttingDown a = true →
  same_handles a (step act a) ∧
  teardown_work (trace (step act a)) = teardown_work (trace a) ∧
  attempted (trace (step act a)) = attempted (trace a).
Proof.
  intros Ht Hs. open_step. case_bool_decide as Hex;
    [|by repeat split].
  destruct act; try discriminate.
  - rewrite turn_no_throw; rewrite shutdown_again by done; [|done].
    by repeat split.
  - unfold turn. rewrite rejection_event_eq, shutdown_sync_again by done.
    fields. rewrite !teardown_work_app, !attempted_app, !app_nil_r.
    by repeat split.
  - unfold turn. rewrite error_event_eq, shutdown_sync_again by done.
    fields. rewrite !teardown_work_app, !attempted_app, !app_nil_r.
    by repeat split.
Qed.

Lemma signal_again (n : nat) (a : Agent) :
  isShuttingDown a = true → run (repeat Signal n) a = a.
Proof.
  intros Hs. induction n as [|n IH]; [done|].
  cbn [repeat]. rewrite run_cons.
  assert (Hstep : step Signal a = a).
  { open_step. case_bool_decide; [|done].
    rewrite turn_no_throw; by rewrite shutdown_again. }
  by rewrite Hstep.
Qed.

(** C7.  In every reachable state no step of the teardown has been
    performed twice.  Once the flag is set, [shutdown] returns at once
    without touching anything: further signals leave the process exactly as
    it is, and any further run of triggers, error and rejection events
    included, repeats no step of [shutdown], attempts no commit and leaves
    the flag, the ledger, the subscription handles, the heartbeat timer and
    the parked tasks as they were.  And a trigger always leaves the flag set
    with the synchronous teardown steps in the trace, so the sequence is
    performed exactly once. *)
Theorem shutdown_idempotent (a0 : Agent) (acts : list Action) :
  pristine a0 →
  let a := run acts (started a0) in
  NoDup (teardown (trace a)) ∧
  (isShuttingDown a = true →
   shutdown a = (Ok tt, a) ∧
   (∀ n, run (repeat Signal n) a = a) ∧
   ∀ more, Forall (λ act, is_trigger act = true) more →
     same_handles a (run more a) ∧
     teardown_work (trace (run more a)) = teardown_work (trace a) ∧
     attempted (trace (run more a)) = attempted (trace a)) ∧
  (∀ act, is_trigger act = true →
     isShuttingDown (step act a) = true ∧
     ∃ r rest, teardown (trace (step act a))
               = teardown_steps SESSION_ID r ++ rest).
Proof.
  intros Hp. cbn zeta.
  pose proof (lifecycle_inv_reachable a0 acts Hp) as Hinv.
  set (a := run acts (started a0)) in *. clearbody a.
  split_and!.
  - by apply teardown_once.
  - intros Hs. split; [by apply shutdown_again|].
    split; [intros n; by apply signal_again|].
    intros more Hmore. clear Hinv. revert a Hs.
    induction Hmore as [|act more Hact _ IH]; intros a Hs;
      [by repeat split|].
    rewrite run_cons.
    destruct (trigger_again act a Hact Hs) as (Hsame & Htd & Hat).
    destruct (IH (step act a)) as (Hsame' & Htd' & Hat').
    { destruct Hsame as (-> & _). done. }
    split_and!; [|congruence..].
    unfold same_handles in *.
    destruct Hsame as (?&?&?&?&?&?&?&?&?).
    destruct Hsame' as (?&?&?&?&?&?&?&?&?).
    split_and!; congruence.
  - intros act Hact.
    assert (Hs' : isShuttingDown (step act a) = true).
    { destruct (isShuttingDown a) eqn:Hs.
      - destruct (trigger_again act a Hact Hs) as ((-> & _) & _). done.
      - unfold lifecycle_inv in Hinv. rewrite Hs in Hinv.
        destruct Hinv as (_ & HA & HP & HK & _ & Hex & _).
        open_step. rewrite Hex. cbn.
        destruct act; try discriminate.
        + destruct (shutdown_first a Hs HA HP HK)
            as (? & ? & ? & c & Hc & Hok & H1 & _).
          rewrite turn_no_throw; [done|by rewrite Hc].
        + unfold turn. rewrite rejection_event_eq.
          destruct (shutdown_sync_first
                 (set_trace (trace a ++
                    [Console LError "💥 Unhandled rejection:" (Some reason)]) a)
                 Hs HA HP HK) as (? & _ & _ & ->).
          done.
        + unfold turn. rewrite error_event_eq.
          destruct (shutdown_sync_first
                 (set_trace (trace a ++
                    [Console LError "💥 Uncaught error:" (Some error)]) a)
                 Hs HA HP HK) as (? & _ & _ & ->).
          done. }
    split; [done|].
    pose proof (lifecycle_inv_step act a Hinv) as Hinv'.
    unfold lifecycle_inv in Hinv'. rewrite Hs' in Hinv'.
    destruct Hinv' as (_ & _ & _ & _ & r & Hcase). exists r.
    destruct Hcase as [(-> & _)|[(-> & _)|(-> & _)]]; eauto.
Qed.


End Properties.


(** ** Start-up *)

Section StartupProperties.

Variable w : World.
Variable args : Args.
Variable env : DenoEnv.

Lemma run_exited (K S : string) (acts : list Action) (a : Agent) :
  exited a ≠ None → run w K S acts a = a.
Proof.
  intros Hex. induction acts as [|act acts IH]; [done|].
  cbn. unfold step. rewrite bool_decide_eq_false_2 by done. apply IH.
Qed.

(** C9.  Without [--help]: when the authentication token or the notebook
    identifier is missing, or the store refuses the registration commit, the
    process writes an error to the console and exits with a non-zero
    status; nothing was committed, nothing but the registration was even
    attempted, no subscription was taken, no timer is pending, and no later
    event changes anything.  When the registration commit is accepted, the
    heartbeat commit is the very next commit attempted and the only other
    one made during start-up; if it is accepted too, the agent starts
    running from a state in which the engine has done nothing yet. *)
Theorem startup_outcomes :
  arg_help args = false →
  let a := deno_run w args env in
  let sessionId := SESSION_ID args env (clock w 0) in
  (truthy (AUTH_TOKEN args env) = false ∨
   truthy (NOTEBOOK_ID args env) = false ∨
   (∃ e, Commit (registration args env sessionId) (Some e) ∈ trace a) →
   (∃ code, exited a = Some code ∧ code ≠ 0) ∧
   (∃ text arg, Console LError text arg ∈ trace a) ∧
   committed (trace a) = [] ∧
   (∀ e, e ∈ attempted (trace a) → e = registration args env sessionId) ∧
   invocations (trace a) = [] ∧
   assignedWorkSubscription a = None ∧
   pendingWorkSubscription a = None ∧
   activeKernelsSubscription a = None ∧
   heartbeatInterval a = false ∧
   timers a = [] ∧
   ∀ K S acts, run w K S acts a = a) ∧
  (Commit (registration args env sessionId) None ∈ trace a →
   attempted (trace a)
   = [registration args env sessionId;
      kernelSessionHeartbeat sessionId "ready" (clock w 1)] ∧
   invocations (trace a) = [] ∧
   timers a = [] ∧
   ((exited a = None ∧ ∃ a0, pristine a0 ∧ a = started a0) ∨
    (exited a = Some 1 ∧
     ∃ e, Commit (kernelSessionHeartbeat sessionId "ready" (clock w 1))
            (Some e) ∈ trace a))).
Proof.
  intros Hh. cbn zeta. unfold deno_run, main, boot, registration.
  rewrite Hh. mrun.
  destruct (truthy (AUTH_TOKEN args env)) eqn:Hauth; mrun;
    [destruct (truthy (NOTEBOOK_ID args env)) eqn:Hnb; mrun;
     [unfold createStorePromise;
      destruct (createStore_throws w) eqn:Hcs; mrun; [|oracle_cases]|]|].
  all: split.
  all: try (intros Hin; exfalso; refute_elem Hin).
  all: try (intros [?|[?|[e' Hin]]]; try congruence; exfalso;
            refute_elem Hin).
  all: intros _.
  all: try solve
    [split; [exists 1; split; [done|lia]|];
     split; [eexists _, _; repeat constructor|];
     split; [done|];
     split; [intros e0 He;
             first [by inversion He|by apply list_elem_of_singleton in He]|];
     split_and!; try done;
     intros K S acts; by apply run_exited].
  - split_and!; try done. right. split; [done|].
    eexists. repeat constructor.
  - split_and!; try done. left. split; [done|].
    eexists (mkAgent false ∅ None None None false [] [] 2 0 [] None _).
    split; [|reflexivity]. by repeat split.
Qed.

End StartupProperties.

(** * What a running agent emits *)

Ltac effect_shape :=
  cbn;
  repeat match goal with
         | |- True => exact I
         | |- _ ∧ _ => split
         | |- _ = _ => reflexivity
         | |- _ ∨ _ =>
             first [left; reflexivity
                   |right; reflexivity
                   |left; split; reflexivity
                   |right; split; [reflexivity|eexists; reflexivity]]
         | |- ∃ _, _ => eexists
         end;
  try lia.

Ltac adv_done :=
  unfold advances; fields;
  eexists; split;
  [rewrite <- ?app_assoc; cbn;
   first [reflexivity|symmetry; apply app_nil_r]|];
  split;
  [repeat (apply Forall_cons; split; [effect_shape|]); apply Forall_nil|];
  split; [lia|];
  split;
  [rewrite ?Nat.sub_diag;
   try match goal with
       | |- context [(S ?n - ?n)%nat] =>
           replace (S n - n)%nat with 1%nat by lia
       end;
   reflexivity|];
  split; [first [reflexivity|apply union_subseteq_r]|];
  split;
  [first [discriminate|intros _; split; reflexivity|intros ?; by split
         |intros ?; congruence]
  |first [by left|by right; left|by right; right]].

Section Emissions.

Variable w : World.
Variables KERNEL_ID SESSION_ID : string.

Local Abbreviation advances := (advances w KERNEL_ID SESSION_ID).
Local Abbreviation step := (step w KERNEL_ID SESSION_ID).
Local Abbreviation run := (run w KERNEL_ID SESSION_ID).

Lemma advances_refl (a : Agent) : advances a a.
Proof. adv_done. Qed.

Lemma advances_trans (a b c : Agent) :
  advances a b → advances b c → advances a c.
Proof.
  intros (n1 & Ht1 & Hf1 & Hu1 & Ho1 & Hl1 & Hs1 & He1)
         (n2 & Ht2 & Hf2 & Hu2 & Ho2 & Hl2 & Hs2 & He2).
  exists (n1 ++ n2). split_and!.
  - by rewrite Ht2, Ht1, app_assoc.
  - by apply Forall_app.
  - lia.
  - unfold output_ids in *. rewrite omap_app, Ho1, Ho2, <- map_app.
    f_equal.
    replace (uuids c - uuids a)%nat
      with ((uuids b - uuids a) + (uuids c - uuids b))%nat by lia.
    rewrite seq_app. do 2 f_equal. lia.
  - by transitivity (processedExecutions b).
  - intros Hs. destruct (Hs1 Hs) as [Hb Hh1]. destruct (Hs2 Hb) as [Hc Hh2].
    split; [done|]. unfold heartbeats in *. by rewrite omap_app, Hh1, Hh2.
  - destruct He2 as [-> | [-> | ->]]; [done|by right; left|by right; right].
Qed.

Lemma shutdown_advances (a : Agent) : advances a (shutdown w SESSION_ID a).2.
Proof. shutdown_cases a; adv_done. Qed.

Lemma rejection_event_advances reason (a : Agent) :
  advances a (rejection_event w SESSION_ID reason a).2.
Proof. open_events. shutdown_cases a; adv_done. Qed.

Lemma error_event_advances error (a : Agent) :
  advances a (error_event w SESSION_ID error a).2.
Proof. open_events. shutdown_cases a; adv_done. Qed.

Lemma assignedWork_onUpdate_advances entries (a : Agent) :
  advances a (assignedWork_onUpdate entries a).2.
Proof.
  unfold assignedWork_onUpdate. mrun.
  destruct (isShuttingDown a) eqn:?; mrun; adv_done.
Qed.

Lemma pendingWork_onUpdate_advances entries (a : Agent) :
  advances a (pendingWork_onUpdate entries a).2.
Proof.
  unfold pendingWork_onUpdate. mrun.
  destruct (isShuttingDown a) eqn:?; mrun; [adv_done|].
  case_bool_decide; mrun; adv_done.
Qed.

Lemma activeKernels_onUpdate_advances entries (a : Agent) :
  advances a (activeKernels_onUpdate entries a).2.
Proof.
  unfold activeKernels_onUpdate. mrun.
  destruct (isShuttingDown a) eqn:?; mrun; adv_done.
Qed.

Lemma heartbeat_advances (a : Agent) :
  advances a (heartbeat w SESSION_ID a).2.
Proof.
  open_heartbeat. mrun.
  destruct (isShuttingDown a) eqn:?; mrun; [adv_done|].
  oracle_cases; adv_done.
Qed.

Lemma pendingWork_timer_advances entries (a : Agent) :
  advances a (pendingWork_timer w SESSION_ID entries a).2.
Proof.
  open_pendingWork_timer. mrun.
  destruct (List.find _ _); [|adv_done].
  destruct entries as [|q rest]; cbn; [adv_done|].
  case_bool_decide; mrun; [|adv_done].
  oracle_cases; adv_done.
Qed.

Lemma assignedWork_loop_advances entries (a : Agent) :
  advances a (assignedWork_loop entries a).2.
Proof.
  destruct (assignedWork_loop_spec entries a)
    as [[-> _]|(pre & q & rest & _ & _ & _ & ->)];
    [apply advances_refl|].
  unfold parked. cbn [snd]. adv_done.
Qed.

Lemma processExecution_resume_advances queueEntry (a : Agent) :
  advances a (processExecution_resume w KERNEL_ID SESSION_ID queueEntry a).2.
Proof.
  exec_cases; cbv [outputData]; try case_bool_decide; adv_done.
Qed.

Lemma assignedWork_resume_advances queueEntry rest (a : Agent) :
  advances a
    (assignedWork_resume w KERNEL_ID SESSION_ID queueEntry rest a).2.
Proof.
  rewrite assignedWork_resume_eq.
  eapply advances_trans;
    [apply processExecution_resume_advances|apply assignedWork_loop_advances].
Qed.

Lemma assignedWork_resume_no_throw queueEntry rest (a : Agent) e :
  (assignedWork_resume w KERNEL_ID SESSION_ID queueEntry rest a).1 ≠ Throw e.
Proof.
  rewrite assignedWork_resume_eq.
  destruct (assignedWork_loop_spec rest
              (processExecution_resume w KERNEL_ID SESSION_ID queueEntry a).2)
    as [[-> _]|(? & ? & ? & _ & _ & _ & ->)]; done.
Qed.

Lemma assignedWork_loop_no_throw entries (a : Agent) e :
  (assignedWork_loop entries a).1 ≠ Throw e.
Proof.
  destruct (assignedWork_loop_spec entries a)
    as [[-> _]|(? & ? & ? & _ & _ & _ & ->)]; done.
Qed.

Lemma run_task_no_throw (t : Task) (a : Agent) e :
  (run_task w KERNEL_ID SESSION_ID t a).1 ≠ Throw e.
Proof.
  destruct t as [entries|q rest|entries| |reason]; cbn [run_task].
  - apply assignedWork_loop_no_throw.
  - apply assignedWork_resume_no_throw.
  - apply pendingWork_timer_quiet.
  - done.
  - apply rejection_event_quiet.
Qed.

Lemma run_task_advances (t : Task) (a : Agent) :
  advances a (run_task w KERNEL_ID SESSION_ID t a).2.
Proof.
  destruct t as [entries|q rest|entries| |reason]; cbn [run_task].
  - apply assignedWork_loop_advances.
  - apply assignedWork_resume_advances.
  - apply pendingWork_timer_advances.
  - mrun. adv_done.
  - apply rejection_event_advances.
Qed.

Lemma step_advances (act : Action) (a : Agent) : advances a (step act a).
Proof.
  open_step. case_bool_decide as Hex; [|apply advances_refl].
  destruct act.
  - rewrite turn_no_throw by apply assignedWork_onUpdate_quiet.
    apply assignedWork_onUpdate_advances.
  - rewrite turn_no_throw by apply pendingWork_onUpdate_quiet.
    apply pendingWork_onUpdate_advances.
  - rewrite turn_no_throw by apply activeKernels_onUpdate_quiet.
    apply activeKernels_onUpdate_advances.
  - destruct (heartbeatInterval a); [|apply advances_refl].
    rewrite turn_no_throw by apply heartbeat_quiet.
    apply heartbeat_advances.
  - destruct (timers a !! i) as [t|]; [|apply advances_refl].
    rewrite turn_no_throw by (intros e; apply run_task_no_throw).
    eapply advances_trans; [|apply run_task_advances]. adv_done.
  - rewrite turn_no_throw by apply shutdown_quiet. apply shutdown_advances.
  - rewrite turn_no_throw by apply rejection_event_quiet.
    apply rejection_event_advances.
  - rewrite turn_no_throw by apply error_event_quiet.
    apply error_event_advances.
  - adv_done.
Qed.

Lemma run_advances (acts : list Action) (a : Agent) :
  advances a (run acts a).
Proof.
  revert a. induction acts as [|act acts IH]; intros a;
    [apply advances_refl|].
  rewrite run_cons. eapply advances_trans; [apply step_advances|apply IH].
Qed.

Lemma attempted_ok (new : list Effect) (e : Event) :
  Forall (effect_ok w KERNEL_ID SESSION_ID) new → e ∈ attempted new →
  event_ok w KERNEL_ID SESSION_ID e.
Proof.
  intros Hall He. unfold attempted in He.
  apply list_elem_of_omap in He as (x & Hx & Hm).
  rewrite Forall_forall in Hall. specialize (Hall x Hx).
  destruct x; try discriminate. by injection Hm as ->.
Qed.

(** X1.  The ledger is append-only: whatever happens to the process, no
    identifier ever leaves [processedExecutions]. *)
Theorem ledger_only_grows (a : Agent) (acts : list Action) :
  processedExecutions a ⊆ processedExecutions (run acts a).
Proof. by destruct (run_advances acts a) as (_ & _ & _ & _ & _ & ? & _). Qed.

(** X2.  Every event a running agent offers to the store speaks for the
    agent itself: heartbeats, terminations, assignments and execution
    starts carry [SESSION_ID], outputs are cleared in the name of
    [kernel-KERNEL_ID], and the session is never registered a second
    time. *)
Theorem commits_name_own_session (a : Agent) (acts : list Action) :
  ∃ new, trace (run acts a) = trace a ++ new ∧
    ∀ e, e ∈ attempted new →
      match e with
      | kernelSessionStarted _ _ _ _ => False
      | kernelSessionHeartbeat sessionId _ _
      | kernelSessionTerminated sessionId _
      | executionAssigned _ sessionId
      | executionStarted _ _ sessionId _ => sessionId = SESSION_ID
      | cellOutputsCleared _ clearedBy => clearedBy = "kernel-" +:+ KERNEL_ID
      | _ => True
      end.
Proof.
  destruct (run_advances acts a) as (new & Htr & Hall & _).
  exists new. split; [done|]. intros e He.
  pose proof (attempted_ok new e Hall He) as Hok.
  destruct e; cbn in Hok; try done; by destruct Hok.
Qed.

(** X3.  Every output-added event offered to the store is an
    ["execute_result"] at position 0 with empty metadata and a single
    [text/plain] payload, and every completion event either has status
    ["success"] and no error or status ["error"] and an error message. *)
Theorem outputs_and_completions_well_formed (a : Agent)
    (acts : list Action) :
  ∃ new, trace (run acts a) = trace a ++ new ∧
    ∀ e, e ∈ attempted new →
      match e with
      | cellOutputAdded _ _ outputType data metadata position =>
          outputType = "execute_result" ∧ metadata = [] ∧ position = 0 ∧
          ∃ payload, data = [("text/plain", payload)]
      | executionCompleted _ _ status error _ _ =>
          status = "success" ∧ error = None ∨
          status = "error" ∧ ∃ message, error = Some message
      | _ => True
      end.
Proof.
  destruct (run_advances acts a) as (new & Htr & Hall & _).
  exists new. split; [done|]. intros e He.
  pose proof (attempted_ok new e Hall He) as Hok.
  destruct e; cbn in Hok; try done; by destruct Hok.
Qed.

(** X4.  When the clock does not run backwards, no completion event ever
    reports a negative duration, on the success path or the failure path. *)
Theorem durations_nonnegative (a : Agent) (acts : list Action) :
  clock_monotone w →
  ∃ new, trace (run acts a) = trace a ++ new ∧
    ∀ queueId cellId status error completedAt executionDurationMs,
      executionCompleted queueId cellId status error completedAt
        executionDurationMs ∈ attempted new →
      0 ≤ executionDurationMs.
Proof.
  intros Hmono. destruct (run_advances acts a) as (new & Htr & Hall & _).
  exists new. split; [done|]. intros qid cid st err t d He.
  destruct (attempted_ok new _ Hall He) as (_ & i & j & Hij & -> & ->).
  specialize (Hmono i j Hij). lia.
Qed.

(** X5.  Each output-added event takes the next value of the UUID
    generator, in order; so when the generator never repeats itself, no two
    output-added events of a run share an identifier. *)
Theorem output_ids_fresh (a : Agent) (acts : list Action) :
  (∀ i j, randomUUID w i = randomUUID w j → i = j) →
  ∃ new, trace (run acts a) = trace a ++ new ∧
    output_ids new
    = map (randomUUID w) (seq (uuids a) (length (output_ids new))) ∧
    NoDup (output_ids new).
Proof.
  intros Hinj.
  destruct (run_advances acts a) as (new & Htr & _ & _ & Hids & _).
  exists new. split; [done|].
  assert (Hlen : length (output_ids new)
                 = (uuids (run acts a) - uuids a)%nat)
    by (by rewrite Hids, length_map, length_seq).
  split; [by rewrite Hlen|].
  rewrite Hids. apply NoDup_fmap_2; [|apply NoDup_seq].
  intros i j. apply Hinj.
Qed.

(** X6.  Shutting down is permanent: once [isShuttingDown] is set it stays
    set, no heartbeat is offered to the store any more, and notifications
    and heartbeat ticks leave the process exactly as it was. *)
Theorem shutting_down_is_permanent (a : Agent) (acts : list Action) :
  isShuttingDown a = true →
  isShuttingDown (run acts a) = true ∧
  (∃ new, trace (run acts a) = trace a ++ new ∧ heartbeats new = []) ∧
  (∀ entries, step (AssignedWorkUpdate entries) a = a) ∧
  (∀ entries, step (PendingWorkUpdate entries) a = a) ∧
  (∀ entries, step (ActiveKernelsUpdate entries) a = a) ∧
  step HeartbeatTick a = a.
Proof.
  intros Hs.
  destruct (run_advances acts a) as (new & Htr & _ & _ & _ & _ & Hflag & _).
  destruct (Hflag Hs) as [Hs' Hhb].
  split_and!; [done|by exists new|..].
  - intros entries. open_step. case_bool_decide; [|done].
    unfold turn, assignedWork_onUpdate. mrun. by rewrite Hs.
  - intros entries. open_step. case_bool_decide; [|done].
    unfold turn, pendingWork_onUpdate. mrun. by rewrite Hs.
  - intros entries. open_step. case_bool_decide; [|done].
    unfold turn, activeKernels_onUpdate. mrun. by rewrite Hs.
  - open_step. case_bool_decide; [|done].
    destruct (heartbeatInterval a); [|done].
    unfold turn. open_heartbeat. mrun. by rewrite Hs.
Qed.


(** X7.  A heartbeat tick on a running agent reads the clock once and
    offers one heartbeat with status ["ready"] and that timestamp; when the
    store refuses it, a warning is written and nothing else happens: in both
    cases the interval stays armed for the next tick. *)
Theorem heartbeat_tick (a : Agent) :
  exited a = None → heartbeatInterval a = true → isShuttingDown a = false →
  let beat := kernelSessionHeartbeat SESSION_ID "ready" (clock w (dates a)) in
  let r := commit_throws w (trace a) beat in
  step HeartbeatTick a
  = set_trace
      (trace a ++ Commit beat r ::
         match r with
         | Some e => [Console LWarn "⚠️ Heartbeat failed:" (Some e)]
         | None => []
         end)
      (set_dates (S (dates a)) a) ∧
  heartbeatInterval (step HeartbeatTick a) = true.
Proof.
  intros Hex Hhb Hs. cbn zeta.
  assert (Heq : step HeartbeatTick a
          = set_trace
              (trace a ++
               Commit (kernelSessionHeartbeat SESSION_ID "ready"
                         (clock w (dates a)))
                 (commit_throws w (trace a)
                    (kernelSessionHeartbeat SESSION_ID "ready"
                       (clock w (dates a)))) ::
               match commit_throws w (trace a)
                       (kernelSessionHeartbeat SESSION_ID "ready"
                          (clock w (dates a))) with
               | Some e => [Console LWarn "⚠️ Heartbeat failed:" (Some e)]
               | None => []
               end)
              (set_dates (S (dates a)) a)).
  { open_step. rewrite Hex, Hhb. cbn. unfold turn. open_heartbeat. mrun.
    rewrite Hs. mrun.
    destruct (commit_throws w (trace a) _); mrun;
      by rewrite <- ?app_assoc. }
  split; [done|]. by rewrite Heq.
Qed.

(** X9.  When [store.shutdown()] rejects, the process never reaches
    [Deno.exit(0)], which sits behind the [await].  After a signal the
    process is still alive; when the rejection of the promise [shutdown]
    returned is reported, the listener logs it and calls [shutdown] again,
    which returns at once, and since the listener does not prevent the
    event the process ends with status 1. *)
Theorem exit_one_when_store_shutdown_rejects
    (a0 : Agent) (acts : list Action) (reason : exn) :
  pristine a0 → store_shutdown w = Some (Some reason) →
  let a := run acts (started a0) in
  exited a ≠ Some 0 ∧
  (isShuttingDown a = false →
   let a1 := step Signal a in
   let a2 := step (TimerFires (length (timers a))) a1 in
   exited a1 = None ∧
   trace a2
   = trace a1
     ++ [Console LError "💥 Unhandled rejection:" (Some reason);
         Console LError "error: Uncaught" (Some reason);
         Exit 1] ∧
   exited a2 = Some 1).
Proof.
  intros Hp Hsd. cbn zeta.
  pose proof (lifecycle_inv_reachable w KERNEL_ID SESSION_ID a0 acts Hp)
    as Hinv.
  set (a := run acts (started a0)) in *. clearbody a.
  unfold lifecycle_inv in Hinv. rewrite Hsd in Hinv. split.
  - destruct (isShuttingDown a).
    + destruct Hinv as (_ & _ & _ & _ & r & Hcase).
      destruct Hcase as [(_ & Hex & _)|[(_ & _ & _ & [])|(_ & Hex)]];
        congruence.
    + destruct Hinv as (_ & _ & _ & _ & _ & Hex & _). congruence.
  - intros Hs. rewrite Hs in Hinv.
    destruct Hinv as (_ & HA & HP & HK & _ & Hex & _).
    destruct (shutdown_first w SESSION_ID a Hs HA HP HK)
      as (r & rest & nt & c & Hc & Hok & Hs1 & _ & _ & _ & _ & _ & Htr
          & Hts & Hcase).
    rewrite Hsd in Hcase. destruct Hcase as (-> & -> & _ & Hex1).
    assert (Hstep : step Signal a = (shutdown w SESSION_ID a).2).
    { open_step. rewrite Hex. cbn.
      rewrite turn_no_throw; [done|by rewrite Hc]. }
    rewrite Hstep. set (a1 := (shutdown w SESSION_ID a).2) in *.
    assert (Hfire : step (TimerFires (length (timers a))) a1
              = set_exited (Some 1)
                  (set_trace
                     (trace a1
                      ++ [Console LError "💥 Unhandled rejection:"
                            (Some reason);
                          Console LError "error: Uncaught" (Some reason);
                          Exit 1])
                     (set_timers (timers a) a1))).
    { open_step. rewrite Hex1, Hex, Hts. cbn.
      rewrite list_lookup_middle by done. cbn [run_task].
      unfold turn. rewrite rejection_event_eq.
      rewrite shutdown_sync_again by done. fields.
      replace (delete (length (timers a)) (timers a ++ [ShutdownRejected reason]))
        with (timers a).
      2:{ clear. induction (timers a) as [|t ts IH]; [done|].
          simpl. by f_equal. }
      by rewrite <- app_assoc. }
    rewrite Hfire. split_and!; [congruence|done..].
Qed.

(** X10.  When the store has no [shutdown] method, a signal on a running
    agent does the synchronous teardown and exits with status 0 in the same
    turn, without any call to close the store. *)
Theorem exit_without_close (a0 : Agent) (acts : list Action) :
  pristine a0 → store_shutdown w = None →
  let a := run acts (started a0) in
  isShuttingDown a = false →
  ∃ r,
    trace (step Signal a)
    = trace a
      ++ [Console LLog "🛑 Shutting down..." None;
          ClearInterval;
          Unsubscribe AssignedWork;
          Unsubscribe PendingWork;
          Unsubscribe ActiveKernels;
          Commit (kernelSessionTerminated SESSION_ID "shutdown") r]
      ++ match r with
         | Some e =>
             [Console LWarn "⚠️ Failed to mark session as terminated:"
                (Some e)]
         | None => []
         end
      ++ [Exit 0] ∧
    exited (step Signal a) = Some 0 ∧
    timers (step Signal a) = timers a.
Proof.
  intros Hp Hsd. cbn zeta. intros Hs.
  pose proof (lifecycle_inv_reachable w KERNEL_ID SESSION_ID a0 acts Hp)
    as Hinv.
  set (a := run acts (started a0)) in *. clearbody a.
  unfold lifecycle_inv in Hinv. rewrite Hs in Hinv.
  destruct Hinv as (_ & HA & HP & HK & _ & Hex & _).
  destruct (shutdown_first w SESSION_ID a Hs HA HP HK)
    as (r & rest & nt & c & Hc & Hok & _ & _ & _ & _ & _ & _ & Htr
        & Hts & Hcase).
  rewrite Hsd in Hcase. destruct Hcase as (-> & -> & _ & Hex1).
  assert (Hstep : step Signal a = (shutdown w SESSION_ID a).2).
  { open_step. rewrite Hex. cbn.
    rewrite turn_no_throw; [done|by rewrite Hc]. }
  rewrite Hstep. exists r. split_and!; [done..|]. by rewrite Hts, app_nil_r.
Qed.

(** X16.  What is in the log after one execution tells what happened
    before: a committed output-added event is always preceded by the
    committed execution-started and outputs-cleared events of the same
    execution, and a committed success completion means that the target
    cell was found and that exactly the four events of the success path
    were committed, in order. *)
Theorem success_needs_full_sequence (queueEntry : QueueEntry) (a : Agent) :
  let r := processExecution_resume w KERNEL_ID SESSION_ID queueEntry a in
  let new := drop (length (trace a)) (trace r.2) in
  let started :=
    executionStarted (qe_id queueEntry) (qe_cellId queueEntry) SESSION_ID
      (clock w (dates a)) in
  let cleared :=
    cellOutputsCleared (qe_cellId queueEntry) ("kernel-" +:+ KERNEL_ID) in
  (∀ e, e ∈ committed new → is_outputAdded e = true →
     ∃ rest, committed new = started :: cleared :: e :: rest) ∧
  (∀ queueId cellId error completedAt executionDurationMs,
     executionCompleted queueId cellId "success" error completedAt
       executionDurationMs ∈ committed new →
     ∃ cell,
       head (filter (λ c, cell_id c = qe_cellId queueEntry) (cells a))
       = Some cell ∧
       committed new
       = [started; cleared;
          cellOutputAdded (randomUUID w (uuids a)) (qe_cellId queueEntry)
            (od_type (outputData cell)) (od_data (outputData cell))
            (od_metadata (outputData cell)) 0;
          executionCompleted (qe_id queueEntry) (qe_cellId queueEntry)
            "success" None (clock w (S (dates a)))
            (clock w (S (dates a)) - clock w (dates a))]).
Proof.
  cbn zeta. exec_cases.
  all: rewrite drop_app_length; cbn.
  all: try rewrite (query_cells_id _ _ _ Hq).
  all: split;
    [intros ev Hin Hout|intros qid cid err t d Hin].
  all: repeat (apply elem_of_cons in Hin as [Hin|Hin];
               [first [subst ev; discriminate Hout
                      |subst ev; eexists; reflexivity
                      |discriminate Hin
                      |eexists; split; reflexivity]|]).
  all: by inversion Hin.
Qed.

Lemma fresh_entries_all_known (ledger : gset string)
    (entries : list QueueEntry) :
  (∀ q, q ∈ entries → qe_id q ∈ ledger) → fresh_entries ledger entries = [].
Proof.
  induction entries as [|q rest IH]; intros Hall; [done|]. cbn.
  rewrite bool_decide_eq_true_2 by (apply Hall; left).
  apply IH. intros p Hp. apply Hall. by right.
Qed.

Lemma fresh_entries_first (ledger : gset string)
    (pre : list QueueEntry) (q : QueueEntry) (rest : list QueueEntry) :
  (∀ p, p ∈ pre → qe_id p ∈ ledger) → qe_id q ∉ ledger →
  fresh_entries ledger (pre ++ q :: rest)
  = q :: fresh_entries ({[qe_id q]} ∪ ledger) rest.
Proof.
  induction pre as [|p pre IH]; intros Hpre Hq; cbn.
  - by rewrite bool_decide_eq_false_2.
  - rewrite bool_decide_eq_true_2 by (apply Hpre; left).
    apply IH; [|done]. intros p' Hp'. apply Hpre. by right.
Qed.

Lemma drain_order (n : nat) (entries : list QueueEntry) (a : Agent) :
  timers a = [] → exited a = None → (length entries ≤ n)%nat →
  let a' := run (repeat (TimerFires 0) n) (assignedWork_loop entries a).2 in
  invocations (trace a')
  = invocations (trace a) ++ fresh_entries (processedExecutions a) entries.
Proof.
  revert entries a. induction n as [|n IH]; intros entries a Ht Hex Hlen.
  - destruct entries; [|cbn in Hlen; lia]. cbn. by rewrite app_nil_r.
  - cbn zeta.
    destruct (assignedWork_loop_spec entries a)
      as [[-> Hall]|(pre & q & rest & -> & Hpre & Hfresh & ->)].
    + cbn [snd]. rewrite run_idle by done.
      by rewrite fresh_entries_all_known, app_nil_r.
    + cbn [snd repeat]. rewrite run_cons.
      set (a2 := set_timers [] (parked q rest a)).
      assert (Hstep : step (TimerFires 0) (parked q rest a)
                      = (assignedWork_loop rest
                           (processExecution_resume w KERNEL_ID SESSION_ID
                              q a2).2).2).
      { open_step. cbn [exited parked set_timers set_trace
          set_processedExecutions timers]. rewrite Ht, Hex. cbn.
        fold a2. rewrite turn_no_throw; rewrite assignedWork_resume_eq;
          [done|]. intros e. apply assignedWork_loop_no_throw. }
      rewrite Hstep.
      destruct (processExecution_resume_frame w KERNEL_ID SESSION_ID q a2)
        as (_ & (_ & Hl & _ & _ & _ & _ & _ & _ & Hts & Hexi)
            & new & Htr & Hinv & _).
      rewrite length_app in Hlen. cbn in Hlen.
      rewrite IH; [|done|by rewrite Hexi|lia].
      rewrite Htr, Hl, invocations_app, Hinv, app_nil_r.
      rewrite fresh_entries_first by done.
      unfold a2, parked. fields. rewrite invocations_app. cbn.
      by rewrite <- app_assoc.
Qed.

(** X17.  A notification delivered to an idle, running agent is worked off
    in the order it came in: after one timer firing for the callback and
    one per entry nothing is left scheduled, and [processExecution] has been
    entered exactly for the entries whose identifier was not in the ledger,
    once per identifier, in notification order. *)
Theorem executes_fresh_entries_in_order
    (entries : list QueueEntry) (a : Agent) :
  timers a = [] → isShuttingDown a = false → exited a = None →
  let a' := run (AssignedWorkUpdate entries
                   :: repeat (TimerFires 0) (S (length entries))) a in
  timers a' = [] ∧
  invocations (trace a')
  = invocations (trace a) ++ fresh_entries (processedExecutions a) entries.
Proof.
  intros Ht Hs Hex. cbn zeta.
  split; [by apply (deliver_and_drain w KERNEL_ID SESSION_ID)|].
  cbn [repeat]. rewrite !run_cons.
  set (b := set_timers [] (set_timers [AssignedWorkTimer entries] a)).
  assert (Hstep : step (TimerFires 0) (step (AssignedWorkUpdate entries) a)
                  = (assignedWork_loop entries b).2).
  { assert (H1 : step (AssignedWorkUpdate entries) a
                 = set_timers [AssignedWorkTimer entries] a).
    { open_step. rewrite Hex. cbn. unfold turn, assignedWork_onUpdate.
      mrun. by rewrite Hs, Ht. }
    rewrite H1. open_step. cbn. rewrite Hex. cbn. fold b.
    rewrite turn_no_throw; [done|].
    intros e. apply assignedWork_loop_no_throw. }
  rewrite Hstep. by rewrite drain_order.
Qed.

(** X18.  An uncaught error or an unhandled rejection ends a running agent
    with status 1, whatever the store does: the listener writes it to the
    console and starts [shutdown], whose synchronous steps run, the
    termination commit and the call of [store.shutdown] included; the
    listener does not prevent the event, so the process ends there, before
    the continuation with [Deno.exit(0)] can run, and nothing happens
    afterwards. *)
Theorem uncaught_error_ends_process
    (a0 : Agent) (acts : list Action) (error : exn) :
  pristine a0 →
  let a := run acts (started a0) in
  isShuttingDown a = false →
  let steps (r : option exn) : list Effect :=
    [Console LLog "🛑 Shutting down..." None;
     ClearInterval;
     Unsubscribe AssignedWork;
     Unsubscribe PendingWork;
     Unsubscribe ActiveKernels;
     Commit (kernelSessionTerminated SESSION_ID "shutdown") r]
    ++ match r with
       | Some e =>
           [Console LWarn "⚠️ Failed to mark session as terminated:" (Some e)]
       | None => []
       end
    ++ closing w
    ++ [Console LError "error: Uncaught" (Some error); Exit 1] in
  (∃ r, trace (step (UncaughtError error) a)
        = trace a
          ++ Console LError "💥 Uncaught error:" (Some error) :: steps r) ∧
  exited (step (UncaughtError error) a) = Some 1 ∧
  (∃ r, trace (step (UnhandledRejection error) a)
        = trace a
          ++ Console LError "💥 Unhandled rejection:" (Some error)
             :: steps r) ∧
  exited (step (UnhandledRejection error) a) = Some 1 ∧
  ∀ more,
    run more (step (UncaughtError error) a) = step (UncaughtError error) a ∧
    run more (step (UnhandledRejection error) a)
    = step (UnhandledRejection error) a.
Proof.
  intros Hp. cbn zeta. intros Hs.
  pose proof (lifecycle_inv_reachable w KERNEL_ID SESSION_ID a0 acts Hp)
    as Hinv.
  set (a := run acts (started a0)) in *. clearbody a.
  unfold lifecycle_inv in Hinv. rewrite Hs in Hinv.
  destruct Hinv as (_ & HA & HP & HK & _ & Hex & _).
  assert (He : step (UncaughtError error) a
               = (error_event w SESSION_ID error a).2).
  { open_step. rewrite Hex. cbn. unfold turn.
    by rewrite error_event_eq. }
  assert (Hr : step (UnhandledRejection error) a
               = (rejection_event w SESSION_ID error a).2).
  { open_step. rewrite Hex. cbn. unfold turn.
    by rewrite rejection_event_eq. }
  rewrite He, Hr, error_event_eq, rejection_event_eq.
  destruct (shutdown_sync_first w SESSION_ID
              (set_trace (trace a ++
                 [Console LError "💥 Uncaught error:" (Some error)]) a)
              Hs HA HP HK) as (r1 & _ & _ & ->).
  destruct (shutdown_sync_first w SESSION_ID
              (set_trace (trace a ++
                 [Console LError "💥 Unhandled rejection:" (Some error)]) a)
              Hs HA HP HK) as (r2 & _ & _ & ->).
  fields. split_and!; [| done | | done |].
  - exists r1. rewrite <- !app_assoc. reflexivity.
  - exists r2. rewrite <- !app_assoc. reflexivity.
  - intros more. split; by apply run_exited.
Qed.

End Emissions.

(** * Start-up: configuration and the other ways to fail *)

Section StartupEdges.

Variable w : World.
Variable args : Args.
Variable env : DenoEnv.

(** X11.  With [--help] the process prints the usage text and exits with
    status 0 before any validation: it does so whatever the configuration,
    never reads the clock and offers nothing to the store. *)
Theorem help_exits_zero :
  arg_help args = true →
  deno_run w args env
  = set_exited (Some 0)
      (set_trace [Console LLog help_text None; Exit 0] boot).
Proof. intros Hh. unfold deno_run, main, boot. rewrite Hh. by mrun. Qed.

(** X12.  The registration commit is attempted exactly when [--help] is
    absent, a non-empty token and a non-empty notebook identifier were
    found, and the store connection was established. *)
Theorem registration_attempted_iff :
  registration args env (SESSION_ID args env (clock w 0))
    ∈ attempted (trace (deno_run w args env))
  ↔ arg_help args = false ∧
    truthy (AUTH_TOKEN args env) = true ∧
    truthy (NOTEBOOK_ID args env) = true ∧
    createStore_throws w = None.
Proof.
  unfold deno_run, main, boot, registration.
  destruct (arg_help args) eqn:Hh; mrun;
    [|destruct (truthy (AUTH_TOKEN args env)) eqn:Hauth; mrun;
      [destruct (truthy (NOTEBOOK_ID args env)) eqn:Hnb; mrun;
       [unfold createStorePromise;
        destruct (createStore_throws w) eqn:Hcs; mrun; [|oracle_cases]|]|]].
  all: split; [intros Hin|intros (? & ? & ? & ?)]; try congruence.
  all: try (exfalso; refute_elem Hin).
  all: try by repeat split.
  all: try by left.
Qed.

(** X13.  Configuration: a non-empty command-line value wins over the
    environment, and a missing or empty one falls back to the environment,
    so that a setting passes validation exactly when a non-empty value is
    given in either place.  The kernel identifier and the sync URL take
    their default only when the environment variable is absent: an empty
    environment variable yields an empty value. *)
Theorem config_resolution :
  (truthy (arg_notebook args) = true →
   NOTEBOOK_ID args env = arg_notebook args) ∧
  (truthy (arg_notebook args) = false →
   NOTEBOOK_ID args env = env_NOTEBOOK_ID env) ∧
  (truthy (arg_auth_token args) = true →
   AUTH_TOKEN args env = arg_auth_token args) ∧
  (truthy (arg_auth_token args) = false →
   AUTH_TOKEN args env = env_AUTH_TOKEN env) ∧
  (truthy (NOTEBOOK_ID args env) = true ↔
   truthy (arg_notebook args) = true ∨ truthy (env_NOTEBOOK_ID env) = true) ∧
  (truthy (AUTH_TOKEN args env) = true ↔
   truthy (arg_auth_token args) = true ∨
   truthy (env_AUTH_TOKEN env) = true) ∧
  (∀ k, arg_kernel_id args = Some k → k ≠ "" → KERNEL_ID args env = k) ∧
  (truthy (arg_kernel_id args) = false →
   KERNEL_ID args env
   = match env_KERNEL_ID env with
     | Some k => k
     | None => "deno-kernel-" +:+ pretty (pid env)
     end) ∧
  (truthy (arg_sync_url args) = false →
   SYNC_URL args env
   = match env_LIVESTORE_SYNC_URL env with
     | Some u => u
     | None => "wss://anode-docworker.rgbkrk.workers.dev"
     end).
Proof.
  unfold NOTEBOOK_ID, AUTH_TOKEN, KERNEL_ID, SYNC_URL, js_or, js_nullish.
  split_and!.
  - by intros ->.
  - by intros ->.
  - by intros ->.
  - by intros ->.
  - destruct (truthy (arg_notebook args)) eqn:Ha;
      rewrite ?Ha; split; [auto..|intros [?|?]; [discriminate|done]].
  - destruct (truthy (arg_auth_token args)) eqn:Ha;
      rewrite ?Ha; split; [auto..|intros [?|?]; [discriminate|done]].
  - intros k -> Hk. cbn. by rewrite bool_decide_eq_false_2.
  - by intros ->.
  - by intros ->.
Qed.

(** X14.  When the store takes the registration but refuses the heartbeat
    that follows it, start-up fails all the same: the process exits with
    status 1 without subscribing to anything, the registration stays in the
    log, and no session-terminated event is ever offered for it. *)
Theorem startup_heartbeat_refused (e : exn) :
  let sessionId := SESSION_ID args env (clock w 0) in
  let a := deno_run w args env in
  Commit (kernelSessionHeartbeat sessionId "ready" (clock w 1)) (Some e)
    ∈ trace a →
  exited a = Some 1 ∧
  committed (trace a) = [registration args env sessionId] ∧
  (∀ s reason r, Commit (kernelSessionTerminated s reason) r ∉ trace a) ∧
  assignedWorkSubscription a = None ∧
  pendingWorkSubscription a = None ∧
  activeKernelsSubscription a = None ∧
  heartbeatInterval a = false ∧
  Console LError "❌ Failed to register kernel session:" (Some e) ∈ trace a.
Proof.
  cbn zeta. unfold deno_run, main, boot, registration.
  destruct (arg_help args) eqn:Hh; mrun;
    [|destruct (truthy (AUTH_TOKEN args env)) eqn:Hauth; mrun;
      [destruct (truthy (NOTEBOOK_ID args env)) eqn:Hnb; mrun;
       [unfold createStorePromise;
        destruct (createStore_throws w) eqn:Hcs; mrun; [|oracle_cases]|]|]].
  all: intros Hin.
  all: try (exfalso; refute_elem Hin).
  apply elem_of_cons in Hin as [Hin|Hin]; [discriminate|].
  apply elem_of_cons in Hin as [Hin|Hin]; [discriminate|].
  apply elem_of_cons in Hin as [Hin|Hin]; [|exfalso; refute_elem Hin].
  injection Hin as ->.
  split_and!; try done.
  - intros s reason r Hterm. refute_elem Hterm.
  - repeat constructor.
Qed.

(** X15.  When the store connection cannot be established, the process
    reports the error and exits with status 1 before offering anything to
    the store. *)
Theorem startup_store_unreachable (e : exn) :
  arg_help args = false →
  truthy (AUTH_TOKEN args env) = true →
  truthy (NOTEBOOK_ID args env) = true →
  createStore_throws w = Some e →
  let a := deno_run w args env in
  exited a = Some 1 ∧
  attempted (trace a) = [] ∧
  last (console_of (trace a)) = Some (LError, "error: Uncaught", Some e) ∧
  assignedWorkSubscription a = None ∧
  pendingWorkSubscription a = None ∧
  activeKernelsSubscription a = None ∧
  heartbeatInterval a = false.
Proof.
  intros Hh Hauth Hnb Hcs. cbn zeta.
  unfold deno_run, main, boot, createStorePromise.
  rewrite Hh. mrun. rewrite Hauth. mrun. rewrite Hnb. mrun.
  rewrite Hcs. mrun. by repeat split.
Qed.

End StartupEdges.

(** * Scenarios *)

(** ** The agent on small runs *)

(** Scenario A: with no active session the coordinator commits nothing;
    once ["s1"] is listed as active, the next refresh assigns [w1] to it. *)
Example scenario_A_no_session :
  attempted
    (trace (run accepting_world "k1" "s1"
              [StoreSync [code_c1] [];
               PendingWorkUpdate [pending_w1]; TimerFires 0]
              (started boot)))
  = [].
Proof. vm_compute. reflexivity. Qed.

Example scenario_A_session_active :
  attempted
    (trace (run accepting_world "k1" "s1"
              [StoreSync [code_c1] [];
               PendingWorkUpdate [pending_w1]; TimerFires 0;
               StoreSync [code_c1] [mkKernelSession "s1" true];
               PendingWorkUpdate [pending_w1]; TimerFires 0]
              (started boot)))
  = [executionAssigned "w1" "s1"].
Proof. vm_compute. reflexivity. Qed.

(** Scenario B, with the notification delivered twice: one execution. *)
Example scenario_B :
  let a := run accepting_world "k1" "s1" duplicate_delivery (started boot) in
  committed (trace a)
  = [executionStarted "w1" "c1" "s1" 1000;
     cellOutputsCleared "c1" "kernel-k1";
     cellOutputAdded "uuid-0" "c1" "execute_result"
       [("text/plain", "print(1)")] [] 0;
     executionCompleted "w1" "c1" "success" None 1001 1] ∧
  invocations_of "w1" a = 1%nat ∧
  completions_of "w1" a = 1%nat ∧
  timers a = [].
Proof. cbn zeta. split_and!; vm_compute; reflexivity. Qed.

(** Scenario C: the target cell is missing. *)
Example scenario_C :
  committed
    (trace (run accepting_world "k1" "s1"
              [AssignedWorkUpdate [entry_w1]; TimerFires 0; TimerFires 0]
              (started boot)))
  = [executionCompleted "w1" "c1" "error" (Some "Cell c1 not found") 1001 1].
Proof. vm_compute. reflexivity. Qed.

(** Two signals in a row, then the continuation of the first. *)
Example two_signals :
  let a := run rejecting_world "k1" "s1" [Signal; Signal; TimerFires 0]
             (started boot) in
  trace a
  = [Console LLog "🛑 Shutting down..." None;
     ClearInterval;
     Unsubscribe AssignedWork;
     Unsubscribe PendingWork;
     Unsubscribe ActiveKernels;
     Commit (kernelSessionTerminated "s1" "shutdown")
       (Some (JsError "commit rejected"));
     Console LWarn "⚠️ Failed to mark session as terminated:"
       (Some (JsError "commit rejected"));
     StoreShutdown;
     Exit 0] ∧
  exited a = Some 0.
Proof. cbn zeta. split; vm_compute; reflexivity. Qed.

(** A start with everything in place, and one with the token missing. *)
Example startup_ok :
  let a := deno_run accepting_world
             (mkArgs (Some "nb1") (Some "secret") None (Some "k1") false)
             empty_env in
  attempted (trace a)
  = [kernelSessionStarted "k1-1000-x7" "k1" "echo"
       (mkCapabilities true false true);
     kernelSessionHeartbeat "k1-1000-x7" "ready" 1001] ∧
  exited a = None ∧ heartbeatInterval a = true ∧
  assignedWorkSubscription a = Some AssignedWork.
Proof. cbn zeta. split_and!; vm_compute; reflexivity. Qed.

Example startup_no_token :
  let a := deno_run accepting_world no_token_args empty_env in
  attempted (trace a) = [] ∧ exited a = Some 1 ∧
  assignedWorkSubscription a = None.
Proof. cbn zeta. split_and!; vm_compute; reflexivity. Qed.

(** ** Where the code departs from the specification *)

(** C2.  With a store that refuses every commit, the entry [w1] is taken up
    by the engine, its execution runs to its end and nothing remains
    scheduled, yet the log holds no completion event for it; the ledger
    keeps it from ever being executed again. *)
Lemma completion_missing_when_commits_refused :
  let a := run rejecting_world "k1" "s1"
             [AssignedWorkUpdate [entry_w1]; TimerFires 0; TimerFires 0]
             (sample_agent [code_c1]) in
  timers a = [] ∧ exited a = None ∧
  "w1" ∈ processedExecutions a ∧
  invocations_of "w1" a = 1%nat ∧
  completions_of "w1" a = 0%nat ∧
  attempted (trace a)
  = [executionStarted "w1" "c1" "s1" 1000;
     executionCompleted "w1" "c1" "error" (Some "commit rejected") 1001 1].
Proof.
  cbn zeta. split_and!; vm_compute; reflexivity.
Qed.

(** C4.  For an ["ai"] cell with source [hi], on a store that takes every
    commit, the one output-added event committed carries the [Beep boop]
    sentence; no output-added event carries the source as its payload. *)
Lemma ai_output_is_not_the_source :
  let a := sample_agent [ai_c1] in
  let r := processExecution_resume accepting_world "k1" "s1" entry_w1 a in
  head (filter (λ c, cell_id c = qe_cellId entry_w1) (cells a)) = Some ai_c1 ∧
  source ai_c1 = Some "hi" ∧
  committed (trace r.2)
  = [executionStarted "w1" "c1" "s1" 1000;
     cellOutputsCleared "c1" "kernel-k1";
     cellOutputAdded "uuid-0" "c1" "execute_result"
       [("text/plain", "Beep boop. You said " +:+ dquote +:+ "hi" +:+ dquote)]
       [] 0;
     executionCompleted "w1" "c1" "success" None 1001 1] ∧
  ¬ ∃ id, cellOutputAdded id "c1" "execute_result" [("text/plain", "hi")] [] 0
          ∈ committed (trace r.2).
Proof.
  cbn zeta. split_and!; try (vm_compute; reflexivity).
  intros [id Hin]. vm_compute in Hin.
  repeat (apply elem_of_cons in Hin as [Hin|Hin]; [discriminate|]).
  inversion Hin.
Qed.

(** C5.  With a store that refuses the success completion and takes the
    rest, an error is raised during the execution steps and caught, the
    failure completion is committed with the message of the caught error,
    and the output-added event committed before the error stays in the
    log. *)
Lemma output_added_before_failed_completion :
  let a := sample_agent [code_c1] in
  let r := processExecution_resume hiccup_world "k1" "s1" entry_w1 a in
  r.1 = Ok tt ∧
  console_of (trace r.2)
  = [(LError, "❌ Error in execution:", Some (JsError "commit rejected"))] ∧
  committed (trace r.2)
  = [executionStarted "w1" "c1" "s1" 1000;
     cellOutputsCleared "c1" "kernel-k1";
     cellOutputAdded "uuid-0" "c1" "execute_result"
       [("text/plain", "print(1)")] [] 0;
     executionCompleted "w1" "c1" "error" (Some "commit rejected") 1002 2] ∧
  filter (λ e, is_outputAdded e) (committed (trace r.2)) ≠ [].
Proof.
  cbn zeta. split_and!; try (vm_compute; reflexivity).
  vm_compute. discriminate.
Qed.


(** ** The theorems at work on sample runs *)

Lemma boot_pristine : pristine boot.
Proof. by repeat split. Defined.

Lemma accepting_world_accepts_all : accepts_all accepting_world.
Proof. intros tr e. reflexivity. Defined.

(** The same entry delivered twice before its execution has started. *)
Lemma at_most_one_invocation_witness :
  pristine boot ∧
  (invocations_of "w1"
     (run accepting_world "k1" "s1" duplicate_delivery (started boot)) ≤ 1)%nat.
Proof.
  split; [exact boot_pristine|].
  apply (at_most_one_invocation accepting_world "k1" "s1" boot
           duplicate_delivery boot_pristine).
Defined.

Lemma completion_events_witness :
  pristine boot ∧
  (completions_of "w1"
     (run accepting_world "k1" "s1" duplicate_delivery (started boot)) ≤ 1)%nat.
Proof.
  split; [exact boot_pristine|].
  apply (completion_events accepting_world "k1" "s1" boot
           duplicate_delivery boot_pristine).
Defined.

Lemma processExecution_success_witness :
  head (filter (λ c, cell_id c = qe_cellId entry_w1)
          (cells (sample_agent [code_c1]))) = Some code_c1 ∧
  accepts_all accepting_world ∧
  (processExecution_resume accepting_world "k1" "s1" entry_w1
     (sample_agent [code_c1])).1 = Ok tt.
Proof.
  split; [reflexivity|]. split; [exact accepting_world_accepts_all|].
  apply (processExecution_success accepting_world "k1" "s1" entry_w1
           (sample_agent [code_c1]) code_c1 eq_refl
           accepting_world_accepts_all).
Defined.

(** Scenario C: the target cell is gone. *)
Lemma processExecution_failure_witness :
  head (filter (λ c, cell_id c = qe_cellId entry_w1)
          (cells (sample_agent []))) = None ∧
  (processExecution_resume accepting_world "k1" "s1" entry_w1
     (sample_agent [])).1 = Ok tt.
Proof.
  split; [reflexivity|].
  apply (processExecution_failure accepting_world "k1" "s1" entry_w1
           (sample_agent []) (or_introl eq_refl)).
Defined.

(** Scenario D, seen from the session that loses the race. *)
Lemma assignment_rejection_absorbed_witness :
  timers (pendingWork_timer contended_world "s1" [pending_w1]
            (sample_agent [code_c1])).2
  = timers (sample_agent [code_c1]).
Proof.
  apply (assignment_rejection_absorbed contended_world "s1" [pending_w1]
           (sample_agent [code_c1]) (mkKernelSession "s1" true) pending_w1
           (JsError "already assigned") eq_refl eq_refl eq_refl eq_refl).
Defined.

Lemma shutdown_idempotent_witness :
  pristine boot ∧
  NoDup (teardown (trace (run accepting_world "k1" "s1"
                            [Signal; Signal; UncaughtError (JsError "boom");
                             TimerFires 0; Signal]
                            (started boot)))).
Proof.
  split; [exact boot_pristine|].
  apply (shutdown_idempotent accepting_world "k1" "s1" boot
           [Signal; Signal; UncaughtError (JsError "boom");
            TimerFires 0; Signal] boot_pristine).
Defined.


Lemma startup_outcomes_witness :
  arg_help no_token_args = false ∧
  ∃ code,
    exited (deno_run accepting_world no_token_args empty_env) = Some code ∧
    code ≠ 0.
Proof.
  split; [reflexivity|].
  apply (startup_outcomes accepting_world no_token_args empty_env eq_refl).
  left. reflexivity.
Defined.

(** ** Further sample runs *)

Lemma steady_clock_monotone : clock_monotone accepting_world.
Proof. intros i j Hij. cbn. unfold steady_clock. lia. Defined.

Lemma sample_uuids_distinct (i j : nat) :
  randomUUID accepting_world i = randomUUID accepting_world j → i = j.
Proof.
  cbn. intros H. apply (inj pretty). by apply (inj (String.app "uuid-")).
Defined.

Lemma durations_nonnegative_witness :
  clock_monotone accepting_world ∧
  ∃ new,
    trace (run accepting_world "k1" "s1" duplicate_delivery (started boot))
    = trace (started boot) ++ new ∧
    ∀ queueId cellId status error completedAt executionDurationMs,
      executionCompleted queueId cellId status error completedAt
        executionDurationMs ∈ attempted new →
      0 ≤ executionDurationMs.
Proof.
  split; [exact steady_clock_monotone|].
  exact (durations_nonnegative accepting_world "k1" "s1" (started boot)
           duplicate_delivery steady_clock_monotone).
Defined.

Lemma output_ids_fresh_witness :
  ∃ new,
    trace (run accepting_world "k1" "s1" duplicate_delivery (started boot))
    = trace (started boot) ++ new ∧
    output_ids new
    = map (randomUUID accepting_world)
        (seq (uuids (started boot)) (length (output_ids new))) ∧
    NoDup (output_ids new).
Proof.
  exact (output_ids_fresh accepting_world "k1" "s1" (started boot)
           duplicate_delivery sample_uuids_distinct).
Defined.

Lemma shutting_down_is_permanent_witness :
  isShuttingDown (run accepting_world "k1" "s1" [Signal] (started boot))
  = true ∧
  isShuttingDown
    (run accepting_world "k1" "s1" [HeartbeatTick; AssignedWorkUpdate [entry_w1]]
       (run accepting_world "k1" "s1" [Signal] (started boot)))
  = true.
Proof.
  split; [reflexivity|].
  apply (shutting_down_is_permanent accepting_world "k1" "s1"
           (run accepting_world "k1" "s1" [Signal] (started boot))
           [HeartbeatTick; AssignedWorkUpdate [entry_w1]] eq_refl).
Defined.

Lemma heartbeat_tick_witness :
  exited (started boot) = None ∧
  heartbeatInterval (started boot) = true ∧
  isShuttingDown (started boot) = false ∧
  heartbeatInterval (step deaf_world "k1" "s1" HeartbeatTick (started boot))
  = true.
Proof.
  split_and!; [reflexivity..|].
  apply (heartbeat_tick deaf_world "k1" "s1" (started boot)
           eq_refl eq_refl eq_refl).
Defined.


Lemma exit_one_when_store_shutdown_rejects_witness :
  pristine boot ∧
  store_shutdown stuck_world = Some (Some (JsError "close failed")) ∧
  isShuttingDown (run stuck_world "k1" "s1" [] (started boot)) = false ∧
  exited (step stuck_world "k1" "s1" Signal
            (run stuck_world "k1" "s1" [] (started boot))) = None ∧
  exited
    (step stuck_world "k1" "s1"
       (TimerFires (length (timers (run stuck_world "k1" "s1" []
                                      (started boot)))))
       (step stuck_world "k1" "s1" Signal
          (run stuck_world "k1" "s1" [] (started boot)))) = Some 1.
Proof.
  split; [exact boot_pristine|]. split; [reflexivity|].
  split; [reflexivity|].
  destruct (exit_one_when_store_shutdown_rejects stuck_world "k1" "s1" boot
              [] (JsError "close failed") boot_pristine eq_refl)
    as [_ Hrun].
  destruct (Hrun eq_refl) as (H1 & _ & H2).
  exact (conj H1 H2).
Defined.

Lemma exit_without_close_witness :
  pristine boot ∧ store_shutdown bare_world = None ∧
  isShuttingDown (run bare_world "k1" "s1" [] (started boot)) = false ∧
  ∃ r,
    trace (step bare_world "k1" "s1" Signal
             (run bare_world "k1" "s1" [] (started boot)))
    = trace (run bare_world "k1" "s1" [] (started boot))
      ++ [Console LLog "🛑 Shutting down..." None;
          ClearInterval;
          Unsubscribe AssignedWork;
          Unsubscribe PendingWork;
          Unsubscribe ActiveKernels;
          Commit (kernelSessionTerminated "s1" "shutdown") r]
      ++ match r with
         | Some e =>
             [Console LWarn "⚠️ Failed to mark session as terminated:"
                (Some e)]
         | None => []
         end
      ++ [Exit 0] ∧
    exited (step bare_world "k1" "s1" Signal
              (run bare_world "k1" "s1" [] (started boot))) = Some 0 ∧
    timers (step bare_world "k1" "s1" Signal
              (run bare_world "k1" "s1" [] (started boot)))
    = timers (run bare_world "k1" "s1" [] (started boot)).
Proof.
  split; [exact boot_pristine|]. split; [reflexivity|].
  split; [reflexivity|].
  exact (exit_without_close bare_world "k1" "s1" boot [] boot_pristine
           eq_refl eq_refl).
Defined.

Lemma help_exits_zero_witness :
  arg_help help_args = true ∧
  deno_run rejecting_world help_args empty_env
  = set_exited (Some 0)
      (set_trace [Console LLog help_text None; Exit 0] boot).
Proof.
  split; [reflexivity|].
  exact (help_exits_zero rejecting_world help_args empty_env eq_refl).
Defined.

Lemma heartbeat_refused_at_startup :
  Commit (kernelSessionHeartbeat (SESSION_ID full_args empty_env
                                    (clock deaf_world 0))
            "ready" (clock deaf_world 1))
    (Some (JsError "not now"))
  ∈ trace (deno_run deaf_world full_args empty_env).
Proof. vm_compute. repeat constructor. Defined.

Lemma startup_heartbeat_refused_witness :
  exited (deno_run deaf_world full_args empty_env) = Some 1.
Proof.
  apply (startup_heartbeat_refused deaf_world full_args empty_env
           (JsError "not now") heartbeat_refused_at_startup).
Defined.

Lemma startup_store_unreachable_witness :
  arg_help full_args = false ∧
  truthy (AUTH_TOKEN full_args empty_env) = true ∧
  truthy (NOTEBOOK_ID full_args empty_env) = true ∧
  createStore_throws offline_world = Some (JsError "connection refused") ∧
  exited (deno_run offline_world full_args empty_env) = Some 1.
Proof.
  split_and!; [reflexivity..|].
  apply (startup_store_unreachable offline_world full_args empty_env
           (JsError "connection refused") eq_refl eq_refl eq_refl eq_refl).
Defined.

Lemma executes_fresh_entries_in_order_witness :
  timers (sample_agent [code_c1]) = [] ∧
  isShuttingDown (sample_agent [code_c1]) = false ∧
  exited (sample_agent [code_c1]) = None ∧
  timers (run accepting_world "k1" "s1"
            (AssignedWorkUpdate [entry_w1; entry_w1]
               :: repeat (TimerFires 0) (S (length [entry_w1; entry_w1])))
            (sample_agent [code_c1])) = [].
Proof.
  split_and!; [reflexivity..|].
  apply (executes_fresh_entries_in_order accepting_world "k1" "s1"
           [entry_w1; entry_w1] (sample_agent [code_c1])
           eq_refl eq_refl eq_refl).
Defined.

Lemma uncaught_error_ends_process_witness :
  pristine boot ∧
  isShuttingDown (run accepting_world "k1" "s1" [] (started boot)) = false ∧
  exited
    (step accepting_world "k1" "s1" (UncaughtError (JsError "boom"))
       (run accepting_world "k1" "s1" [] (started boot)))
  = Some 1 ∧
  exited
    (step accepting_world "k1" "s1" (UnhandledRejection (JsError "boom"))
       (run accepting_world "k1" "s1" [] (started boot)))
  = Some 1.
Proof.
  split; [exact boot_pristine|]. split; [reflexivity|].
  destruct (uncaught_error_ends_process accepting_world "k1" "s1" boot []
              (JsError "boom") boot_pristine eq_refl)
    as (_ & H1 & _ & H2 & _).
  exact (conj H1 H2).
Defined.
